(** * bladeRF NIOS II firmware: the legacy packet handler (pkt_legacy.c)

    A shallow embedding of
    hdl/fpga/ip/altera/nios_system/software/bladeRF_nios/src/pkt_legacy.c
    and the properties of its address map, its two resumable config
    transfer engines and its device router.

    Conventions.
    - A C integer of width w is a [Z]; every conversion the C code performs
      is written out ([u8], [u16], [u32], [u64], [s32]).
    - The request and response buffers of [struct pkt_buf] are [list Z];
      an element is read through [byte_at] and stored with stdpp's
      [<[i:=v]>].  Indexing past the end is undefined in C; here a read
      yields 0 and a store does nothing.  With the 3-bit count field and
      16-byte buffers the handler never indexes past byte 15.
    - The function-local [static] variables of [legacy_config_read] and
      [legacy_config_write] are the fields [rd] and [wr] of [state].
    - The peripheral drivers (devices.h) are external.  Every call the
      handler makes to one of them is recorded in [trace], most recent
      first; what a reading driver returns is given by [dev_read], a
      function of the calls made so far. *)

From Stdlib Require Import ZArith Lia Bool String Ascii.
From stdpp Require Import base list.

Local Open Scope Z_scope.

(** ** Fixed-width integers *)

Definition u8 (x : Z) : Z := x mod 2 ^ 8.
Definition u16 (x : Z) : Z := x mod 2 ^ 16.
Definition u32 (x : Z) : Z := x mod 2 ^ 32.
Definition u64 (x : Z) : Z := x mod 2 ^ 64.

(** Two's complement wrap into [int] (32 bits on the NIOS II). *)
Definition s32 (x : Z) : Z := (x + 2 ^ 31) mod 2 ^ 32 - 2 ^ 31.

(** Byte [k] of a value, least significant first. *)
Definition byte_of (v : Z) (k : Z) : Z := u8 (Z.shiftr v (k * 8)).

(** The NIOS II [sll] instruction takes the shift distance from the low
    five bits of its second operand.  This is one possible outcome of a C
    shift of an [int] by 32 or more, which the language leaves undefined. *)
Definition sll_nios2 (x sh : Z) : Z := s32 (x * 2 ^ (sh mod 32)).

(** ** Packet layout (pkt_legacy.c, lines 32-48) *)

Definition UART_PKT_MODE_CNT_MASK : Z := 0x7.
Definition UART_PKT_MODE_CNT_SHIFT : Z := 0.

Definition UART_PKT_MODE_DEV_MASK : Z := 0x30.
Definition UART_PKT_MODE_DEV_SHIFT : Z := 4.
Definition UART_PKT_DEV_CONFIG : Z := Z.shiftl 0 UART_PKT_MODE_DEV_SHIFT.
Definition UART_PKT_DEV_LMS : Z := Z.shiftl 1 UART_PKT_MODE_DEV_SHIFT.
Definition UART_PKT_DEV_SI5338 : Z := Z.shiftl 3 UART_PKT_MODE_DEV_SHIFT.

Definition UART_PKT_MODE_DIR_MASK : Z := 0xC0.
Definition UART_PKT_MODE_DIR_SHIFT : Z := 6.
Definition UART_PKT_MODE_DIR_READ : Z := Z.shiftl 2 UART_PKT_MODE_DIR_SHIFT.
Definition UART_PKT_MODE_DIR_WRITE : Z := Z.shiftl 1 UART_PKT_MODE_DIR_SHIFT.

Definition PAYLOAD_IDX : nat := 2.
Definition ADDR_IDX : nat := PAYLOAD_IDX.
Definition DATA_IDX : nat := (ADDR_IDX + 1)%nat.

(** [struct pkt_buf]: the request is read-only, the response is written. *)
Record pkt_buf : Type := { req : list Z; resp : list Z }.

Definition byte_at (l : list Z) (i : nat) : Z := u8 (default 0 (l !! i)).

Definition set_resp (b : pkt_buf) (i : nat) (v : Z) : pkt_buf :=
  {| req := req b; resp := <[i := v]> (resp b) |}.

(** ** The config address map (lines 60-115) *)

Inductive config_param : Type :=
| CONFIG_CONTROL_REG
| CONFIG_IQ_CORR_RX_GAIN
| CONFIG_IQ_CORR_RX_PHASE
| CONFIG_IQ_CORR_TX_GAIN
| CONFIG_IQ_CORR_TX_PHASE
| CONFIG_FPGA_VERSION
| CONFIG_RX_TIMESTAMP
| CONFIG_TX_TIMESTAMP
| CONFIG_VCTXCO
| CONFIG_XB200_SYNTH
| CONFIG_EXPANSION
| CONFIG_EXPANSION_DIR
| CONFIG_UNKNOWN.

(** The enumerator's integer value. *)
Definition param_index (p : config_param) : nat :=
  match p with
  | CONFIG_CONTROL_REG => 0
  | CONFIG_IQ_CORR_RX_GAIN => 1
  | CONFIG_IQ_CORR_RX_PHASE => 2
  | CONFIG_IQ_CORR_TX_GAIN => 3
  | CONFIG_IQ_CORR_TX_PHASE => 4
  | CONFIG_FPGA_VERSION => 5
  | CONFIG_RX_TIMESTAMP => 6
  | CONFIG_TX_TIMESTAMP => 7
  | CONFIG_VCTXCO => 8
  | CONFIG_XB200_SYNTH => 9
  | CONFIG_EXPANSION => 10
  | CONFIG_EXPANSION_DIR => 11
  | CONFIG_UNKNOWN => 12
  end%nat.

(** The cast [(enum config_param) i] of [lookup_param]; [i] is below
    [ARRAY_SIZE(config_params)] there. *)
Definition param_of_index (i : nat) : config_param :=
  match i with
  | 0 => CONFIG_CONTROL_REG
  | 1 => CONFIG_IQ_CORR_RX_GAIN
  | 2 => CONFIG_IQ_CORR_RX_PHASE
  | 3 => CONFIG_IQ_CORR_TX_GAIN
  | 4 => CONFIG_IQ_CORR_TX_PHASE
  | 5 => CONFIG_FPGA_VERSION
  | 6 => CONFIG_RX_TIMESTAMP
  | 7 => CONFIG_TX_TIMESTAMP
  | 8 => CONFIG_VCTXCO
  | 9 => CONFIG_XB200_SYNTH
  | 10 => CONFIG_EXPANSION
  | 11 => CONFIG_EXPANSION_DIR
  | _ => CONFIG_UNKNOWN
  end%nat.

Record config_param_info : Type := { start : Z; len : Z }.

Definition config_params : list config_param_info :=
  [ {| start := 0;   len := 4 |}     (* CONFIG_CONTROL_REG *)
  ; {| start := 4;   len := 2 |}     (* CONFIG_IQ_CORR_RX_GAIN *)
  ; {| start := 6;   len := 2 |}     (* CONFIG_IQ_CORR_RX_PHASE *)
  ; {| start := 8;   len := 2 |}     (* CONFIG_IQ_CORR_TX_GAIN *)
  ; {| start := 10;  len := 2 |}     (* CONFIG_IQ_CORR_TX_PHASE *)
  ; {| start := 12;  len := 4 |}     (* CONFIG_FPGA_VERSION *)
  ; {| start := 16;  len := 8 |}     (* CONFIG_RX_TIMESTAMP *)
  ; {| start := 24;  len := 8 |}     (* CONFIG_TX_TIMESTAMP *)
  ; {| start := 34;  len := 2 |}     (* CONFIG_VCTXCO *)
  ; {| start := 36;  len := 4 |}     (* CONFIG_XB200_SYNTH *)
  ; {| start := 40;  len := 4 |}     (* CONFIG_EXPANSION *)
  ; {| start := 44;  len := 4 |}     (* CONFIG_EXPANSION_DIR *)
  ; {| start := 255; len := 0 |}     (* CONFIG_UNKNOWN *)
  ].

(** [config_params[p]]. *)
Definition info (p : config_param) : config_param_info :=
  default {| start := 0; len := 0 |} (config_params !! param_index p).

(** The test of the loop body of [lookup_param].  [start + len] is
    computed in [int], so it does not wrap at 256. *)
Definition in_range (e : config_param_info) (addr : Z) : bool :=
  (start e <=? addr) && (start e + len e >? addr).

(** The same test as a proposition: [addr] lies in [start, start+len). *)
Definition contains (e : config_param_info) (addr : Z) : Prop :=
  start e <= addr < start e + len e.

(** The [for] loop of [lookup_param], from index [i] over the rest [tbl]
    of the table. *)
Fixpoint lookup_from (i : nat) (tbl : list config_param_info) (addr : Z)
  : config_param :=
  match tbl with
  | [] => CONFIG_UNKNOWN
  | e :: rest =>
      if in_range e addr then param_of_index i
      else lookup_from (S i) rest addr
  end.

Definition lookup_param (addr : Z) : config_param :=
  lookup_from 0 config_params addr.

(** The table without its last entry, the UNKNOWN sentinel. *)
Definition descriptors : list config_param_info :=
  take (param_index CONFIG_UNKNOWN) config_params.

(** ** The peripheral drivers (devices.h), as recorded calls *)

Inductive bladerf_module : Type := BLADERF_MODULE_RX | BLADERF_MODULE_TX.

Inductive call : Type :=
| control_reg_read
| iqbal_get_gain (m : bladerf_module)
| iqbal_get_phase (m : bladerf_module)
| fpga_version
| time_tamer_read (m : bladerf_module)
| expansion_port_read
| expansion_port_get_direction
| lms6_read (addr : Z)
| si5338_read (addr : Z)
| control_reg_write (v : Z)
| iqbal_set_gain (m : bladerf_module) (v : Z)
| iqbal_set_phase (m : bladerf_module) (v : Z)
| time_tamer_reset (m : bladerf_module)
| vctcxo_trim_dac_write (v : Z)
| adf4351_write (v : Z)
| expansion_port_write (v : Z)
| expansion_port_set_direction (v : Z)
| lms6_write (addr data : Z)
| si5338_write (addr data : Z).

Definition is_write_call (c : call) : bool :=
  match c with
  | control_reg_write _ | iqbal_set_gain _ _ | iqbal_set_phase _ _
  | time_tamer_reset _ | vctcxo_trim_dac_write _ | adf4351_write _
  | expansion_port_write _ | expansion_port_set_direction _
  | lms6_write _ _ | si5338_write _ _ => true
  | _ => false
  end.

(** ** Handler state *)

(** The three statics of one config transfer engine. *)
Record xfer : Type := { param : config_param; n : Z; payload : Z }.

Record state : Type := {
  rd : xfer;            (* statics of legacy_config_read *)
  wr : xfer;            (* statics of legacy_config_write *)
  trace : list call     (* driver calls so far, most recent first *)
}.

Definition set_rd (s : state) (x : xfer) : state :=
  {| rd := x; wr := wr s; trace := trace s |}.
Definition set_wr (s : state) (x : xfer) : state :=
  {| rd := rd s; wr := x; trace := trace s |}.
Definition emit (c : call) (s : state) : state :=
  {| rd := rd s; wr := wr s; trace := c :: trace s |}.

(** Static initialisers: [legacy_config_read] starts with
    [CONFIG_UNKNOWN], 0, 0; the [param] of [legacy_config_write] has no
    initialiser and so starts as enumerator 0. *)
Definition rd_init : xfer :=
  {| param := CONFIG_UNKNOWN; n := 0; payload := 0 |}.
Definition wr_init : xfer :=
  {| param := CONFIG_CONTROL_REG; n := 0; payload := 0 |}.
Definition init : state := {| rd := rd_init; wr := wr_init; trace := [] |}.

(** ** Sample frames and drivers *)

(** A 16-byte request with configuration byte [cfg] and the given payload
    bytes from [PAYLOAD_IDX] on, paired with a zeroed response.  The
    configuration byte is stored at index 0 and at index 1, so the frame
    reads the same for either value of [PKT_CFG_IDX]. *)
Definition frame (cfg : Z) (tuples : list Z) : pkt_buf :=
  {| req := take 16 (cfg :: cfg :: tuples ++ replicate 14 0);
     resp := replicate 16 0 |}.

(** Modelled from the spec: pkt_handler.h, which defines [PKT_CFG_IDX],
    is not among the sources; the spec puts the control byte at byte 0 of
    the request. *)
Definition PKT_CFG_IDX_spec : nat := 0.

(** A driver model with fixed register contents. *)
Definition dev_sample (history : list call) (c : call) : Z :=
  match c with
  | control_reg_read => 0x04030201
  | time_tamer_read _ => 0x0807060504030201
  | lms6_read addr => addr + 1
  | _ => 0x5A
  end.

(** A write of the RX timestamp (addresses 16 to 23) in two frames of 7
    and 1 tuples, with data bytes 0x01, 0x02, 0x04, ..., 0x80. *)
Definition ts_write_frame1 : pkt_buf :=
  frame 0x47 [16; 0x01; 17; 0x02; 18; 0x04; 19; 0x08;
              20; 0x10; 21; 0x20; 22; 0x40].
Definition ts_write_frame2 : pkt_buf :=
  frame 0x41 [23; 0x80].

(** One tuple of a read of the control register, and one tuple of a
    write to it. *)
Definition ctrl_read_frame : pkt_buf := frame 0x81 [0; 0].
Definition ctrl_write_frame : pkt_buf := frame 0x41 [0; 0xAB].

(** ** The hardware loop test (test_txrx_hwloop.h)

    The two functions of
    host/libraries/libbladeRF_test/test_timestamps/src/test_txrx_hwloop.h
    that compute: [getopt_str] and [init_devices].

    - An array that ends with a sentinel entry is a list; walking off the
      end of the list stands for reading past the array.  Undefined
      behaviour (that, a store outside the allocated block, or overflow
      of an [int]) is the outer [None] of a result.
    - [malloc] and the libbladeRF calls are external: what they return
      is given by [malloc] and by [api_status]. *)
Module HwLoop.

(** [has_arg] values of getopt.h. *)
Definition no_argument : Z := 0.
Definition required_argument : Z := 1.
Definition optional_argument : Z := 2.

(** [struct option] of getopt.h; a [NULL] pointer is [None]. *)
Record option_ : Type := {
  name : option string;
  has_arg : Z;
  flag : option Z;
  val : Z
}.

Definition chr (c : ascii) : Z := Z.of_nat (nat_of_ascii c).

(** The table [long_options] (lines 41-50). *)
Definition long_options : list option_ :=
  [ {| name := Some "burst"%string; has_arg := required_argument;
       flag := None; val := chr "b" |}
  ; {| name := Some "period"%string; has_arg := required_argument;
       flag := None; val := chr "p" |}
  ; {| name := Some "fill"%string; has_arg := required_argument;
       flag := None; val := chr "f" |}
  ; {| name := Some "loop"%string; has_arg := no_argument;
       flag := None; val := chr "l" |}
  ; {| name := Some "iterations"%string; has_arg := required_argument;
       flag := None; val := chr "i" |}
  ; {| name := Some "verbosity"%string; has_arg := required_argument;
       flag := None; val := chr "v" |}
  ; {| name := Some "help"%string; has_arg := no_argument;
       flag := None; val := chr "h" |}
  ; {| name := None; has_arg := 0; flag := None; val := 0 |}
  ].

Definition INT_MAX : Z := 2 ^ 31 - 1.

(** [i++] on an [int]; overflow is undefined. *)
Definition int_incr (i : Z) : option Z :=
  if i <? INT_MAX then Some (i + 1) else None.

(** [buf[i] = c] on a block of [length buf] chars. *)
Definition store (buf : list Z) (i : Z) (c : Z) : option (list Z) :=
  if (0 <=? i) && (i <? Z.of_nat (length buf))
  then Some (<[Z.to_nat i := c]> buf) else None.

(** [struct test_case] (lines 28-38). *)
Record test_case : Type := {
  burst_len : Z;
  iterations : Z;
  num_zero_samples : Z;
  period : Z;
  fill : Z;
  frequency : Z;
  dev_tx_str : option string;
  dev_rx_str : option string;
  just_tx : bool
}.

(** The two device handles [init_devices] fills in. *)
Inductive handle : Type := dev_tx | dev_rx.

Section Host.

(** Width of [size_t] on the host. *)
Variable SIZE_WIDTH : Z.

(** [malloc]: [NULL], or a block of the size asked for with the
    contents it happens to have. *)
Variable malloc : Z -> option (list Z).

Definition usize (x : Z) : Z := x mod 2 ^ SIZE_WIDTH.

(** The first loop of [getopt_str] (lines 55-60), from the entry at the
    head of [opts] with [len] counted so far. *)
Fixpoint opt_len (opts : list option_) (len : Z) : option Z :=
  match opts with
  | [] => None
  | o :: rest =>
      match name o with
      | None => Some len
      | Some _ =>
          let len1 := usize (len + 1) in
          let len2 := if has_arg o =? required_argument
                      then usize (len1 + 1) else len1 in
          opt_len rest len2
      end
  end.

(** The second loop (lines 68-73); the [int] stored in a [char] keeps
    its low byte. *)
Fixpoint opt_fill (opts : list option_) (i : Z) (opt_str : list Z)
  : option (Z * list Z) :=
  match opts with
  | [] => None
  | o :: rest =>
      match name o with
      | None => Some (i, opt_str)
      | Some _ =>
          match store opt_str i (u8 (val o)), int_incr i with
          | Some buf1, Some i1 =>
              if has_arg o =? required_argument then
                match store buf1 i1 (chr ":"), int_incr i1 with
                | Some buf2, Some i2 => opt_fill rest i2 buf2
                | _, _ => None
                end
              else opt_fill rest i1 buf1
          | _, _ => None
          end
      end
  end.

(** [getopt_str] (lines 52-77).  [Some None] is the [NULL] it returns
    when [malloc] fails; [Some (Some str)] is the block it returns, as
    filled. *)
Definition getopt_str (long_options : list option_)
  : option (option (list Z)) :=
  match opt_len long_options 0 with
  | None => None
  | Some len =>
      match malloc (usize ((len + 1) * 1)) with
      | None => Some None
      | Some blk =>
          match opt_fill long_options 0 blk with
          | None => None
          | Some (i, buf) =>
              match store buf i 0 with
              | None => None
              | Some str => Some (Some str)
              end
          end
      end
  end.

(** The short-option characters of one entry: its [val], followed by a
    colon when it takes a required argument. *)
Definition short_of (o : option_) : list Z :=
  u8 (val o) :: (if has_arg o =? required_argument then [chr ":"] else []).

(** [struct app_params] is declared elsewhere; [init_devices] reads its
    [samplerate] and passes it on. *)
Variable app_params : Type.
Variable samplerate : app_params -> Z.

(** The libbladeRF calls of [init_devices]. *)
Inductive api_call : Type :=
| bladerf_open (dev : handle) (identifier : option string)
| bladerf_set_sample_rate (dev : handle) (m : bladerf_module) (rate : Z)
| perform_sync_init (dev : handle) (m : bladerf_module) (buf_size : Z)
                    (p : app_params)
| bladerf_set_frequency (dev : handle) (m : bladerf_module) (freq : Z).

(** What [init_devices] does that can be seen: calls, and lines printed
    to [stderr] (with the status handed to [bladerf_strerror]) and to
    [stdout]. *)
Inductive event : Type :=
| Call (c : api_call)
| Stderr (msg : string) (status : Z)
| Stdout (msg : string).

(** The status a call returns, given the events before it. *)
Variable api_status : list event -> api_call -> Z.

(** [status = call; if (status != 0) { fprintf(stderr, msg ...); return
    status; }] followed by the rest [k] of the function.  Events are
    recorded most recent first. *)
Definition checked (c : api_call) (msg : string)
    (k : list event -> Z * list event) (tr : list event)
  : Z * list event :=
  let status := api_status tr c in
  if status =? 0 then k (Call c :: tr)
  else (status, Stderr msg status :: Call c :: tr).

(** [init_devices] (lines 125-186).  Each message is the text of the
    format string before its [%s]; the two mode lines are given without
    their newline. *)
Definition init_devices (p : app_params) (tc : test_case)
    (tr : list event) : Z * list event :=
  checked (bladerf_open dev_tx (dev_tx_str tc))
          "Failed to open TX device: " (
  checked (bladerf_set_sample_rate dev_tx BLADERF_MODULE_TX (samplerate p))
          "Failed to set TX sample rate: " (
  checked (perform_sync_init dev_tx BLADERF_MODULE_TX 0 p)
          "Failed to set TX sync init: " (
  checked (bladerf_set_frequency dev_tx BLADERF_MODULE_TX (frequency tc))
          "Failed to set TX frequency: " (fun tr =>
  if just_tx tc then (0, Stdout "Mode: TX Only" :: tr)
  else
    checked (bladerf_open dev_rx (dev_rx_str tc))
            "Failed to open RX device: " (
    checked (bladerf_set_sample_rate dev_rx BLADERF_MODULE_RX (samplerate p))
            "Failed to set RX sample rate: " (
    checked (perform_sync_init dev_rx BLADERF_MODULE_RX 0 p)
            "Failed to set RX sync init: " (
    checked (bladerf_set_frequency dev_rx BLADERF_MODULE_RX (frequency tc))
            "Failed to set RX frequency: " (fun tr =>
    (0, tr))))) (Stdout "Mode: TX -> RX" :: tr))))) tr.

(** The calls [init_devices] makes when none fails, in order. *)
Definition tx_plan (p : app_params) (tc : test_case) : list api_call :=
  [ bladerf_open dev_tx (dev_tx_str tc)
  ; bladerf_set_sample_rate dev_tx BLADERF_MODULE_TX (samplerate p)
  ; perform_sync_init dev_tx BLADERF_MODULE_TX 0 p
  ; bladerf_set_frequency dev_tx BLADERF_MODULE_TX (frequency tc) ].
Definition rx_plan (p : app_params) (tc : test_case) : list api_call :=
  [ bladerf_open dev_rx (dev_rx_str tc)
  ; bladerf_set_sample_rate dev_rx BLADERF_MODULE_RX (samplerate p)
  ; perform_sync_init dev_rx BLADERF_MODULE_RX 0 p
  ; bladerf_set_frequency dev_rx BLADERF_MODULE_RX (frequency tc) ].
Definition plan (p : app_params) (tc : test_case) : list api_call :=
  tx_plan p tc ++ (if just_tx tc then [] else rx_plan p tc).

(** The calls among a list of events, oldest first. *)
Fixpoint calls_of (tr : list event) : list api_call :=
  match tr with
  | [] => []
  | Call c :: rest => calls_of rest ++ [c]
  | _ :: rest => calls_of rest
  end.

(** The handle a call is made on. *)
Definition handle_of (c : api_call) : handle :=
  match c with
  | bladerf_open d _ | bladerf_set_sample_rate d _ _
  | perform_sync_init d _ _ _ | bladerf_set_frequency d _ _ => d
  end.

End Host.

End HwLoop.

Section Handler.

(** Index of the configuration byte in the request (pkt_handler.h, not
    part of these sources). *)
Variable PKT_CFG_IDX : nat.

(** What a driver read returns, given the calls made before it. *)
Variable dev_read : list call -> call -> Z.

(** What the target yields for [x << sh] on an [int] when [sh >= 32],
    which C leaves undefined.  Whatever it is, it is an [int]: the model
    wraps it with [s32]. *)
Variable shl_wide : Z -> Z -> Z.

(** [x << sh] on [int]. *)
Definition int_shl (x sh : Z) : Z :=
  if sh <? 32 then s32 (x * 2 ^ sh) else s32 (shl_wide x sh).

(** A call to a reading driver: its result and the state with the call
    recorded. *)
Definition do_read (c : call) (s : state) : Z * state :=
  (dev_read (trace s) c, emit c s).

(** [perform_config_read] (lines 117-190).  The drivers' results are
    converted to [uint64_t]. *)
Definition perform_config_read (p : config_param) (s : state) : Z * state :=
  match p with
  | CONFIG_CONTROL_REG =>
      let '(v, s') := do_read control_reg_read s in (u64 v, s')
  | CONFIG_IQ_CORR_RX_GAIN =>
      let '(v, s') := do_read (iqbal_get_gain BLADERF_MODULE_RX) s in (u64 v, s')
  | CONFIG_IQ_CORR_RX_PHASE =>
      let '(v, s') := do_read (iqbal_get_phase BLADERF_MODULE_RX) s in (u64 v, s')
  | CONFIG_IQ_CORR_TX_GAIN =>
      let '(v, s') := do_read (iqbal_get_gain BLADERF_MODULE_TX) s in (u64 v, s')
  | CONFIG_IQ_CORR_TX_PHASE =>
      let '(v, s') := do_read (iqbal_get_phase BLADERF_MODULE_TX) s in (u64 v, s')
  | CONFIG_FPGA_VERSION =>
      let '(v, s') := do_read fpga_version s in (u64 v, s')
  | CONFIG_RX_TIMESTAMP =>
      let '(v, s') := do_read (time_tamer_read BLADERF_MODULE_RX) s in (u64 v, s')
  | CONFIG_TX_TIMESTAMP =>
      let '(v, s') := do_read (time_tamer_read BLADERF_MODULE_TX) s in (u64 v, s')
  | CONFIG_VCTXCO => (0, s)
  | CONFIG_XB200_SYNTH => (0, s)
  | CONFIG_EXPANSION =>
      let '(v, s') := do_read expansion_port_read s in (u64 v, s')
  | CONFIG_EXPANSION_DIR =>
      let '(v, s') := do_read expansion_port_get_direction s in (u64 v, s')
  | CONFIG_UNKNOWN => (u64 (-1), s)
  end.

(** The [if (n == 0)] block of [legacy_config_read] (lines 204-215). *)
Definition config_read_begin (b : pkt_buf) (s : state) : state :=
  if n (rd s) =? 0 then
    let p := lookup_param (byte_at (req b) PAYLOAD_IDX) in
    let '(v, s') := perform_config_read p s in
    set_rd s' {| param := p; n := n (rd s'); payload := v |}
  else s.

(** The [for] loop of [legacy_config_read] (lines 203-233) with [todo]
    iterations left; [req_data] and [resp_data] are the two running
    pointers, as indices. *)
Fixpoint config_read_loop (todo : nat) (req_data resp_data : nat)
    (b : pkt_buf) (s : state) : pkt_buf * state :=
  match todo with
  | O => (b, s)
  | S todo' =>
      let s1 := config_read_begin b s in
      let x := rd s1 in
      let b1 := set_resp b resp_data
                  (u8 (byte_at (req b) req_data - start (info (param x)))) in
      let b2 := set_resp b1 (resp_data + 1)
                  (u8 (Z.shiftr (payload x) (n x * 8))) in
      let n' := u8 (n x + 1) in
      if n' >=? len (info (param x)) then
        (b2, set_rd s1 {| param := CONFIG_UNKNOWN; n := 0; payload := 0 |})
      else
        config_read_loop todo' (req_data + 2) (resp_data + 2) b2
          (set_rd s1 {| param := param x; n := n'; payload := payload x |})
  end.

Definition legacy_config_read (count : Z) (b : pkt_buf) (s : state)
  : pkt_buf * state :=
  config_read_loop (Z.to_nat count) PAYLOAD_IDX PAYLOAD_IDX b s.

(** [legacy_pkt_read] (lines 236-262). *)
Definition legacy_pkt_read (dev_id count : Z) (b : pkt_buf) (s : state)
  : pkt_buf * state :=
  if dev_id =? UART_PKT_DEV_LMS then
    let b1 := set_resp b ADDR_IDX (byte_at (req b) ADDR_IDX) in
    let '(v, s') := do_read (lms6_read (byte_at (req b) ADDR_IDX)) s in
    (set_resp b1 DATA_IDX (u8 v), s')
  else if dev_id =? UART_PKT_DEV_SI5338 then
    let b1 := set_resp b ADDR_IDX (byte_at (req b) ADDR_IDX) in
    let '(v, s') := do_read (si5338_read (byte_at (req b) ADDR_IDX)) s in
    (set_resp b1 DATA_IDX (u8 v), s')
  else if dev_id =? UART_PKT_DEV_CONFIG then
    legacy_config_read count b s
  else (b, s).

(** [perform_config_write] (lines 264-319).  The casts of the source are
    kept; the two expansion port drivers receive the [uint64_t] as it
    is. *)
Definition perform_config_write (p : config_param) (v : Z) (s : state)
  : state :=
  match p with
  | CONFIG_CONTROL_REG => emit (control_reg_write (u32 v)) s
  | CONFIG_IQ_CORR_RX_GAIN => emit (iqbal_set_gain BLADERF_MODULE_RX (u16 v)) s
  | CONFIG_IQ_CORR_RX_PHASE => emit (iqbal_set_phase BLADERF_MODULE_RX (u16 v)) s
  | CONFIG_IQ_CORR_TX_GAIN => emit (iqbal_set_gain BLADERF_MODULE_TX (u16 v)) s
  | CONFIG_IQ_CORR_TX_PHASE => emit (iqbal_set_phase BLADERF_MODULE_TX (u16 v)) s
  | CONFIG_FPGA_VERSION => s
  | CONFIG_RX_TIMESTAMP => emit (time_tamer_reset BLADERF_MODULE_RX) s
  | CONFIG_TX_TIMESTAMP => emit (time_tamer_reset BLADERF_MODULE_TX) s
  | CONFIG_VCTXCO => emit (vctcxo_trim_dac_write (u16 v)) s
  | CONFIG_XB200_SYNTH => emit (adf4351_write (u32 v)) s
  | CONFIG_EXPANSION => emit (expansion_port_write v) s
  | CONFIG_EXPANSION_DIR => emit (expansion_port_set_direction v) s
  | CONFIG_UNKNOWN => s
  end.

(** The [for] loop of [legacy_config_write] (lines 344-354).  The data
    byte is promoted to [int] and shifted there; the result is converted
    to [uint64_t] for the [|=]. *)
Fixpoint config_write_loop (todo : nat) (req_data resp_data : nat)
    (b : pkt_buf) (s : state) : pkt_buf * state :=
  match todo with
  | O => (b, s)
  | S todo' =>
      let x := wr s in
      if n x <? len (info (param x)) then
        let b1 := set_resp b resp_data
                    (u8 (byte_at (req b) req_data - start (info (param x)))) in
        let b2 := set_resp b1 (resp_data + 1) 0 in
        let payload' :=
          Z.lor (payload x)
                (u64 (int_shl (byte_at (req b) (req_data + 1)) (n x * 8))) in
        config_write_loop todo' (req_data + 2) (resp_data + 2) b2
          (set_wr s {| param := param x; n := u8 (n x + 1);
                       payload := payload' |})
      else (b, s)
  end.

(** [legacy_config_write] (lines 321-362), in its two halves.  The first
    (lines 340-354) resolves the parameter when no transfer is under way
    and gathers the data bytes of this frame. *)
Definition config_write_gather (count : Z) (b : pkt_buf) (s : state)
  : pkt_buf * state :=
  let s0 :=
    if n (wr s) =? 0 then
      set_wr s {| param := lookup_param (byte_at (req b) PAYLOAD_IDX);
                  n := n (wr s); payload := payload (wr s) |}
    else s in
  config_write_loop (Z.to_nat count) PAYLOAD_IDX PAYLOAD_IDX b s0.

(** The second half (lines 356-361) hands the gathered [payload] to
    [perform_config_write] once [n] has reached the length. *)
Definition config_write_flush (s : state) : state :=
  let x := wr s in
  if n x >=? len (info (param x)) then
    let s' := perform_config_write (param x) (payload x) s in
    set_wr s' {| param := param x; n := 0; payload := 0 |}
  else s.

Definition legacy_config_write (count : Z) (b : pkt_buf) (s : state)
  : pkt_buf * state :=
  let '(b1, s1) := config_write_gather count b s in
  (b1, config_write_flush s1).

(** [legacy_pkt_write] (lines 365-392). *)
Definition legacy_pkt_write (dev_id count : Z) (b : pkt_buf) (s : state)
  : pkt_buf * state :=
  if dev_id =? UART_PKT_DEV_LMS then
    let s' := emit (lms6_write (byte_at (req b) ADDR_IDX)
                               (byte_at (req b) DATA_IDX)) s in
    let b1 := set_resp b ADDR_IDX (byte_at (req b) ADDR_IDX) in
    (set_resp b1 DATA_IDX 0, s')
  else if dev_id =? UART_PKT_DEV_SI5338 then
    let s' := emit (si5338_write (byte_at (req b) ADDR_IDX)
                                 (byte_at (req b) DATA_IDX)) s in
    let b1 := set_resp b ADDR_IDX (byte_at (req b) ADDR_IDX) in
    (set_resp b1 DATA_IDX 0, s')
  else if dev_id =? UART_PKT_DEV_CONFIG then
    legacy_config_write count b s
  else (b, s).

(** The fields of the configuration byte (lines 397-401). *)
Definition is_read (cfg : Z) : bool :=
  negb (Z.land cfg UART_PKT_MODE_DIR_READ =? 0).
Definition is_write (cfg : Z) : bool :=
  negb (Z.land cfg UART_PKT_MODE_DIR_WRITE =? 0).
Definition dev_id (cfg : Z) : Z := Z.land cfg UART_PKT_MODE_DEV_MASK.
Definition count (cfg : Z) : Z := Z.land cfg UART_PKT_MODE_CNT_MASK.

(** [pkt_legacy] (lines 394-413). *)
Definition pkt_legacy (b : pkt_buf) (s : state) : pkt_buf * state :=
  let cfg := byte_at (req b) PKT_CFG_IDX in
  if is_read cfg then legacy_pkt_read (dev_id cfg) (count cfg) b s
  else if is_write cfg then legacy_pkt_write (dev_id cfg) (count cfg) b s
  else (b, s).

(** The firmware serving a sequence of requests, each with the response
    buffer the caller prepared; the responses are returned in order. *)
Fixpoint serve (frames : list pkt_buf) (s : state) : list pkt_buf * state :=
  match frames with
  | [] => ([], s)
  | b :: rest =>
      let '(b', s') := pkt_legacy b s in
      let '(bs, s'') := serve rest s' in
      (b' :: bs, s'')
  end.

(** A state the firmware can be in after some sequence of frames. *)
Inductive reachable : state -> Prop :=
| reachable_init : reachable init
| reachable_step b s :
    reachable s -> reachable (snd (pkt_legacy b s)).

(** The response buffer after [m] consecutive iterations of the loop of
    [legacy_config_read] that do not complete the parameter: tuple after
    tuple, the address relative to the start of [p] and then byte [k],
    [k+1], ... of the value [v]. *)
Fixpoint served (m : nat) (rq rs : nat) (p : config_param) (v k : Z)
    (reqs resps : list Z) : list Z :=
  match m with
  | O => resps
  | S m' =>
      served m' (rq + 2) (rs + 2) p v (k + 1) reqs
        (<[(rs + 1)%nat := byte_of v k]>
           (<[rs := u8 (byte_at reqs rq - start (info p))]> resps))
  end.

(** What holds of the read engine's statics between frames: they are
    at their initial values, or a parameter is partly served. *)
Definition rd_ok (x : xfer) : Prop :=
  x = rd_init \/ 1 <= n x < len (info (param x)).

(** What holds of the write engine's statics between frames: nothing is
    gathered, or a parameter is partly gathered. *)
Definition wr_ok (x : xfer) : Prop :=
  (n x = 0 /\ payload x = 0) \/ 1 <= n x < len (info (param x)).

(** Byte 4 of a 64-bit value that is all zeros or all ones, as the
    upper half of a sign-extended [int] is. *)
Definition byte4_extended (v : Z) : Prop :=
  byte_of v 4 = 0 \/ byte_of v 4 = 0xFF.

(** The config parameter of a module's timestamp counter. *)
Definition timestamp_param (m : bladerf_module) : config_param :=
  match m with
  | BLADERF_MODULE_RX => CONFIG_RX_TIMESTAMP
  | BLADERF_MODULE_TX => CONFIG_TX_TIMESTAMP
  end.

(** The value of a sequence of bytes, least significant first. *)
Fixpoint le_value (bytes : list Z) : Z :=
  match bytes with
  | [] => 0
  | d :: rest => d + 2 ^ 8 * le_value rest
  end.

(** The data bytes of the first [m] tuples of a request. *)
Definition data_bytes (b : pkt_buf) (m : nat) : list Z :=
  map (fun i => byte_at (req b) (DATA_IDX + 2 * i)) (seq 0 m).

(** The driver call of a direct access to the transceiver (LMS6002D) or
    the clock synthesizer (Si5338), by device selector. *)
Definition chip_read (dev addr : Z) : call :=
  if dev =? UART_PKT_DEV_LMS then lms6_read addr else si5338_read addr.
Definition chip_write (dev addr data : Z) : call :=
  if dev =? UART_PKT_DEV_LMS then lms6_write addr data
  else si5338_write addr data.

(** From [s] to [s'] the write engine's statics are untouched and only
    reading drivers were called. *)
Definition reads_only (s s' : state) : Prop :=
  wr s' = wr s /\
  exists calls, trace s' = calls ++ trace s /\
                Forall (fun c => is_write_call c = false) calls.

(** ** The address map *)

Lemma in_range_contains e addr : in_range e addr = true <-> contains e addr.
Proof. unfold in_range, contains. rewrite andb_true_iff. lia. Qed.

Lemma in_range_not_contains e addr :
  in_range e addr = false <-> ~ contains e addr.
Proof.
  rewrite <- in_range_contains. destruct (in_range e addr); split; congruence.
Qed.

Lemma lookup_from_hit tbl : forall i addr k e,
  tbl !! k = Some e -> in_range e addr = true ->
  (forall j e', (j < k)%nat -> tbl !! j = Some e' -> in_range e' addr = false) ->
  lookup_from i tbl addr = param_of_index (i + k).
Proof.
  induction tbl as [|e0 tbl IH]; intros i addr k e Hk He Hfirst.
  - discriminate.
  - destruct k as [|k]; simpl in *.
    + inversion Hk; subst e0. rewrite He. f_equal. lia.
    + rewrite (Hfirst 0%nat e0) by (simpl; auto with lia).
      rewrite (IH (S i) addr k e Hk He).
      * f_equal. lia.
      * intros j e' Hj Hl. apply (Hfirst (S j) e'); [lia | exact Hl].
Qed.

Lemma lookup_from_miss tbl : forall i addr,
  (forall k e, tbl !! k = Some e -> in_range e addr = false) ->
  lookup_from i tbl addr = CONFIG_UNKNOWN.
Proof.
  induction tbl as [|e0 tbl IH]; intros i addr Hall; simpl.
  - reflexivity.
  - rewrite (Hall 0%nat e0 eq_refl). apply IH.
    intros k e Hk. apply (Hall (S k) e Hk).
Qed.

Lemma info_param_of_index k e :
  config_params !! k = Some e -> info (param_of_index k) = e.
Proof.
  intros Hk. unfold info.
  do 13 (destruct k as [|k]; [simpl in *; congruence|]).
  discriminate.
Qed.

(** C1. [lookup_param] is a function on every 8-bit address (total and
    deterministic by construction).  It returns the first entry of the
    table whose range [start, start+len) contains the address, and for an
    address that no entry contains it returns [CONFIG_UNKNOWN], whose
    length is zero. *)
Theorem lookup_param_first_match (addr : Z) (Haddr : 0 <= addr <= 255) :
  (forall k e,
      config_params !! k = Some e -> contains e addr ->
      (forall j e', (j < k)%nat -> config_params !! j = Some e' ->
                    ~ contains e' addr) ->
      lookup_param addr = param_of_index k /\ info (lookup_param addr) = e)
  /\ ((forall k e, config_params !! k = Some e -> ~ contains e addr) ->
      lookup_param addr = CONFIG_UNKNOWN)
  /\ len (info CONFIG_UNKNOWN) = 0.
Proof.
  split; [|split].
  - intros k e Hk He Hfirst.
    assert (Hl : lookup_param addr = param_of_index k).
    { unfold lookup_param.
      rewrite (lookup_from_hit config_params 0%nat addr k e Hk).
      - reflexivity.
      - now apply in_range_contains.
      - intros j e' Hj Hl. apply in_range_not_contains. eauto. }
    split; [exact Hl|]. rewrite Hl. now apply info_param_of_index.
  - intros Hnone. unfold lookup_param. apply lookup_from_miss.
    intros k e Hk. apply in_range_not_contains. eauto.
  - reflexivity.
Qed.

(** C3 (as amended).  Without the sentinel, the table is in strictly
    ascending order of [start] and an earlier range ends at or before the
    start of every later one, so no two ranges overlap.  Consecutive
    ranges touch, except that the range of [CONFIG_TX_TIMESTAMP] (index 7)
    ends at 32 and that of [CONFIG_VCTXCO] starts at 34. *)
Theorem config_params_layout :
  (forall i j e1 e2, (i < j)%nat ->
      descriptors !! i = Some e1 -> descriptors !! j = Some e2 ->
      start e1 < start e2 /\ start e1 + len e1 <= start e2)
  /\ (forall i e1 e2,
      descriptors !! i = Some e1 -> descriptors !! S i = Some e2 ->
      start e2 = start e1 + len e1 + (if decide (i = 7%nat) then 2 else 0)).
Proof.
  split.
  - intros i j e1 e2 Hij H1 H2.
    do 12 (destruct i as [|i]; [
      do 12 (destruct j as [|j]; [
        first [lia | (simpl in H1, H2; inversion H1; inversion H2;
                      subst; simpl; lia)] |]);
      discriminate |]).
    discriminate.
  - intros i e1 e2 H1 H2.
    do 12 (destruct i as [|i]; [
      simpl in H1, H2; first [discriminate |
        inversion H1; inversion H2; subst; reflexivity] |]).
    discriminate.
Qed.

(** ** The device router *)

Lemma reads_only_refl s : reads_only s s.
Proof. split; [reflexivity|]. exists []. split; [reflexivity|constructor]. Qed.

Lemma reads_only_trans s1 s2 s3 :
  reads_only s1 s2 -> reads_only s2 s3 -> reads_only s1 s3.
Proof.
  intros [Hw1 (c1 & Ht1 & Hf1)] [Hw2 (c2 & Ht2 & Hf2)].
  split; [congruence|]. exists (c2 ++ c1). split.
  - rewrite Ht2, Ht1. now rewrite app_assoc.
  - apply Forall_app; auto.
Qed.

Lemma reads_only_emit c s : is_write_call c = false -> reads_only s (emit c s).
Proof.
  intros Hc. split; [reflexivity|]. exists [c]. split; [reflexivity|].
  repeat constructor; exact Hc.
Qed.

Lemma reads_only_set_rd s s' x : reads_only s s' -> reads_only s (set_rd s' x).
Proof. intros [Hw Ht]. split; [exact Hw | exact Ht]. Qed.

Lemma perform_config_read_rd p s : rd (snd (perform_config_read p s)) = rd s.
Proof. destruct p; reflexivity. Qed.

Lemma perform_config_read_reads_only p s :
  reads_only s (snd (perform_config_read p s)).
Proof.
  destruct p; simpl;
    first [apply reads_only_refl | now apply reads_only_emit].
Qed.

Lemma config_read_begin_reads_only b s :
  reads_only s (config_read_begin b s).
Proof.
  unfold config_read_begin. destruct (n (rd s) =? 0).
  - pose proof (perform_config_read_reads_only
                  (lookup_param (byte_at (req b) PAYLOAD_IDX)) s) as H.
    destruct (perform_config_read _ s) as [v s']. simpl in H.
    now apply reads_only_set_rd.
  - apply reads_only_refl.
Qed.

Lemma config_read_loop_reads_only todo : forall rq rs b s,
  reads_only s (snd (config_read_loop todo rq rs b s)).
Proof.
  induction todo as [|todo IH]; intros rq rs b s; simpl.
  - apply reads_only_refl.
  - pose proof (config_read_begin_reads_only b s) as Hb.
    destruct (_ >=? _); simpl.
    + now apply reads_only_set_rd.
    + eapply reads_only_trans; [|apply IH]. now apply reads_only_set_rd.
Qed.

Lemma legacy_pkt_read_reads_only dev cnt b s :
  reads_only s (snd (legacy_pkt_read dev cnt b s)).
Proof.
  unfold legacy_pkt_read.
  destruct (dev =? UART_PKT_DEV_LMS); [now apply reads_only_emit|].
  destruct (dev =? UART_PKT_DEV_SI5338); [now apply reads_only_emit|].
  destruct (dev =? UART_PKT_DEV_CONFIG); [|apply reads_only_refl].
  apply config_read_loop_reads_only.
Qed.

(** C8. A frame with neither direction bit set, and a frame whose device
    selector is none of CONFIG, LMS and SI5338 (the reserved value 2 in
    bits 4-5), is a no-op: the response buffer, both transfer states and
    the record of driver calls come back as they were. *)
Theorem pkt_legacy_ignored (b : pkt_buf) (s : state) :
  let cfg := byte_at (req b) PKT_CFG_IDX in
  (is_read cfg = false /\ is_write cfg = false) \/
  dev_id cfg = Z.shiftl 2 UART_PKT_MODE_DEV_SHIFT \/
  (dev_id cfg <> UART_PKT_DEV_CONFIG /\ dev_id cfg <> UART_PKT_DEV_LMS /\
   dev_id cfg <> UART_PKT_DEV_SI5338) ->
  pkt_legacy b s = (b, s).
Proof.
  intros cfg H. unfold pkt_legacy. fold cfg.
  destruct H as [[Hr Hw] | H].
  - now rewrite Hr, Hw.
  - assert (Hd : dev_id cfg <> UART_PKT_DEV_CONFIG /\
                 dev_id cfg <> UART_PKT_DEV_LMS /\
                 dev_id cfg <> UART_PKT_DEV_SI5338).
    { destruct H as [H | H]; [|exact H]. rewrite H.
      repeat split; discriminate. }
    destruct Hd as (Hc & Hl & Hs).
    apply Z.eqb_neq in Hc, Hl, Hs.
    unfold legacy_pkt_read, legacy_pkt_write. rewrite Hc, Hl, Hs.
    destruct (is_read cfg), (is_write cfg); reflexivity.
Qed.

(** C10. When both direction bits are set the frame is handled as a
    read and nothing else: [pkt_legacy] is [legacy_pkt_read], the write
    engine's statics are untouched and every driver call made is a
    read. *)
Theorem pkt_legacy_read_priority (b : pkt_buf) (s : state) :
  let cfg := byte_at (req b) PKT_CFG_IDX in
  is_read cfg = true -> is_write cfg = true ->
  pkt_legacy b s = legacy_pkt_read (dev_id cfg) (count cfg) b s /\
  reads_only s (snd (pkt_legacy b s)).
Proof.
  intros cfg Hr Hw. unfold pkt_legacy. fold cfg. rewrite Hr.
  split; [reflexivity | apply legacy_pkt_read_reads_only].
Qed.

(** C7. For the LMS (transceiver) and SI5338 (clock synthesizer) devices
    one tuple is handled whatever the count field holds.  A read calls
    the chip's read driver with the request's address byte and stores
    that address and the returned byte in the first response tuple; a
    write calls the chip's write driver with the address and data bytes
    and stores the address and a zero byte.  Both transfer states come
    back unchanged and take no part in the result. *)
Theorem pkt_legacy_direct_access (b : pkt_buf) (s : state) :
  let cfg := byte_at (req b) PKT_CFG_IDX in
  let addr := byte_at (req b) ADDR_IDX in
  let data := byte_at (req b) DATA_IDX in
  dev_id cfg = UART_PKT_DEV_LMS \/ dev_id cfg = UART_PKT_DEV_SI5338 ->
  (is_read cfg = true ->
   pkt_legacy b s =
     ({| req := req b;
         resp := <[DATA_IDX := u8 (dev_read (trace s)
                                     (chip_read (dev_id cfg) addr))]>
                   (<[ADDR_IDX := addr]> (resp b)) |},
      {| rd := rd s; wr := wr s;
         trace := chip_read (dev_id cfg) addr :: trace s |}))
  /\ (is_read cfg = false -> is_write cfg = true ->
      pkt_legacy b s =
        ({| req := req b;
            resp := <[DATA_IDX := 0]> (<[ADDR_IDX := addr]> (resp b)) |},
         {| rd := rd s; wr := wr s;
            trace := chip_write (dev_id cfg) addr data :: trace s |})).
Proof.
  intros cfg addr data Hdev. unfold pkt_legacy. fold cfg.
  split.
  - intros Hr. rewrite Hr. unfold legacy_pkt_read, chip_read.
    destruct Hdev as [-> | ->]; reflexivity.
  - intros Hr Hw. rewrite Hr, Hw. unfold legacy_pkt_write, chip_write.
    destruct Hdev as [-> | ->]; reflexivity.
Qed.

(** ** The read engine *)

Ltac case_leb :=
  match goal with
  | |- context [Nat.leb ?a ?b] => destruct (Nat.leb_spec a b)
  end.

Lemma len_info_bound p : 0 <= len (info p) <= 8.
Proof. destruct p; simpl; lia. Qed.

Lemma served_length m : forall rq rs p v k reqs resps,
  length (served m rq rs p v k reqs resps) = length resps.
Proof.
  induction m as [|m IH]; intros; simpl; [reflexivity|].
  rewrite IH. now rewrite !length_insert.
Qed.

Lemma served_lookup_outside m : forall rq rs p v k reqs resps j,
  (j < rs \/ rs + 2 * m <= j)%nat ->
  served m rq rs p v k reqs resps !! j = resps !! j.
Proof.
  induction m as [|m IH]; intros rq rs p v k reqs resps j Hj; simpl.
  - reflexivity.
  - rewrite IH by lia.
    rewrite list_lookup_insert_ne by lia.
    now rewrite list_lookup_insert_ne by lia.
Qed.

Lemma served_lookup_data m : forall rq rs p v k reqs resps i,
  (i < m)%nat -> (rs + 2 * i + 1 < length resps)%nat ->
  served m rq rs p v k reqs resps !! (rs + 2 * i + 1)%nat
  = Some (byte_of v (k + Z.of_nat i)).
Proof.
  induction m as [|m IH]; intros rq rs p v k reqs resps i Hi Hlen; [lia|].
  cbn [served]. destruct i as [|i].
  - rewrite served_lookup_outside by lia.
    replace (rs + 2 * 0 + 1)%nat with (rs + 1)%nat by lia.
    rewrite list_lookup_insert_eq by (rewrite length_insert; lia).
    do 2 f_equal. lia.
  - replace (rs + 2 * S i + 1)%nat with (rs + 2 + 2 * i + 1)%nat by lia.
    rewrite IH by (rewrite ?length_insert; lia).
    do 2 f_equal. lia.
Qed.

Lemma served_lookup_addr m : forall rq rs p v k reqs resps i,
  (i < m)%nat -> (rs + 2 * i + 1 < length resps)%nat ->
  served m rq rs p v k reqs resps !! (rs + 2 * i)%nat
  = Some (u8 (byte_at reqs (rq + 2 * i) - start (info p))).
Proof.
  induction m as [|m IH]; intros rq rs p v k reqs resps i Hi Hlen; [lia|].
  cbn [served]. destruct i as [|i].
  - rewrite served_lookup_outside by lia.
    replace (rs + 2 * 0)%nat with rs by lia.
    replace (rq + 2 * 0)%nat with rq by lia.
    rewrite list_lookup_insert_ne by lia.
    now rewrite list_lookup_insert_eq by lia.
  - replace (rs + 2 * S i)%nat with (rs + 2 + 2 * i)%nat by lia.
    replace (rq + 2 * S i)%nat with (rq + 2 + 2 * i)%nat by lia.
    apply IH; rewrite ?length_insert; lia.
Qed.

Lemma config_read_begin_busy b s : n (rd s) <> 0 -> config_read_begin b s = s.
Proof.
  intros Hn. unfold config_read_begin.
  apply Z.eqb_neq in Hn. now rewrite Hn.
Qed.

(** The loop resumed in the middle of a parameter: it serves the bytes
    that are left, or as many as there are tuples. *)
Lemma config_read_loop_resume todo : forall rq rs b s,
  1 <= n (rd s) < len (info (param (rd s))) ->
  config_read_loop todo rq rs b s =
    let x := rd s in
    let left := Z.to_nat (len (info (param x)) - n x) in
    if (left <=? todo)%nat then
      ({| req := req b;
          resp := served left rq rs (param x) (payload x) (n x)
                    (req b) (resp b) |},
       set_rd s rd_init)
    else
      ({| req := req b;
          resp := served todo rq rs (param x) (payload x) (n x)
                    (req b) (resp b) |},
       set_rd s {| param := param x; n := n x + Z.of_nat todo;
                   payload := payload x |}).
Proof.
  induction todo as [|todo IH]; intros rq rs b s Hn.
  - cbv zeta. destruct (Nat.leb_spec (Z.to_nat (len (info (param (rd s))) - n (rd s))) 0);
      [lia|].
    destruct b as [rqs rsp], s as [[p k v] w t]; simpl in *.
    unfold set_rd; simpl. do 3 f_equal. lia.
  - pose proof (len_info_bound (param (rd s))) as Hb.
    cbn [config_read_loop]. rewrite config_read_begin_busy by lia.
    assert (Hu : u8 (n (rd s) + 1) = n (rd s) + 1).
    { unfold u8. apply Z.mod_small. lia. }
    rewrite Hu. cbv zeta.
    destruct (Z.geb_spec (n (rd s) + 1) (len (info (param (rd s))))) as [Hge|Hlt].
    + replace (Z.to_nat (len (info (param (rd s))) - n (rd s))) with 1%nat by lia.
      reflexivity.
    + rewrite IH by (simpl; lia). simpl.
      replace (Z.to_nat (len (info (param (rd s))) - n (rd s)))
        with (S (Z.to_nat (len (info (param (rd s))) - (n (rd s) + 1)))) by lia.
      cbn [Nat.leb served].
      destruct (_ <=? todo)%nat; unfold set_rd; simpl; [reflexivity|].
      do 3 f_equal. lia.
Qed.

(** The first iteration on an idle read engine. *)
Lemma config_read_loop_start todo rq rs b s :
  n (rd s) = 0 ->
  config_read_loop (S todo) rq rs b s =
    let p := lookup_param (byte_at (req b) PAYLOAD_IDX) in
    let vs := perform_config_read p s in
    let b2 := {| req := req b;
                 resp := served 1 rq rs p (fst vs) 0 (req b) (resp b) |} in
    if len (info p) <=? 1 then (b2, set_rd (snd vs) rd_init)
    else config_read_loop todo (rq + 2) (rs + 2) b2
           (set_rd (snd vs) {| param := p; n := 1; payload := fst vs |}).
Proof.
  intros Hn. cbn [config_read_loop]. unfold config_read_begin.
  rewrite Hn. cbn [Z.eqb].
  pose proof (perform_config_read_rd
                (lookup_param (byte_at (req b) PAYLOAD_IDX)) s) as Hrd.
  destruct (perform_config_read _ s) as [v s']. simpl in Hrd.
  cbn [rd set_rd param n payload fst snd]. rewrite Hrd, Hn.
  change (u8 (0 + 1)) with 1. rewrite Z.geb_leb.
  reflexivity.
Qed.

(** [legacy_config_read] on an idle engine, in closed form: the
    parameter is resolved and read once, then [max 1 len] tuples are
    served, or [cnt] of them if that is fewer. *)
Lemma legacy_config_read_idle cnt b s :
  n (rd s) = 0 -> 1 <= cnt ->
  legacy_config_read cnt b s =
    let p := lookup_param (byte_at (req b) PAYLOAD_IDX) in
    let vs := perform_config_read p s in
    let m := Z.to_nat (Z.max 1 (len (info p))) in
    if (m <=? Z.to_nat cnt)%nat then
      ({| req := req b;
          resp := served m PAYLOAD_IDX PAYLOAD_IDX p (fst vs) 0
                    (req b) (resp b) |},
       set_rd (snd vs) rd_init)
    else
      ({| req := req b;
          resp := served (Z.to_nat cnt) PAYLOAD_IDX PAYLOAD_IDX p (fst vs) 0
                    (req b) (resp b) |},
       set_rd (snd vs) {| param := p; n := cnt; payload := fst vs |}).
Proof.
  intros Hn Hc. unfold legacy_config_read.
  destruct (Z.to_nat cnt) as [|todo] eqn:Htodo; [lia|].
  rewrite config_read_loop_start by exact Hn. cbv zeta.
  set (p := lookup_param _). set (vs := perform_config_read p s).
  pose proof (len_info_bound p) as Hb.
  destruct (Z.leb_spec (len (info p)) 1) as [Hle|Hgt].
  - replace (Z.to_nat (Z.max 1 (len (info p)))) with 1%nat by lia.
    reflexivity.
  - rewrite config_read_loop_resume by (simpl; lia).
    cbn [rd set_rd param n payload req resp].
    replace (Z.to_nat (Z.max 1 (len (info p))))
      with (S (Z.to_nat (len (info p) - 1))) by lia.
    cbn [Nat.leb served]. change (0 + 1) with 1.
    destruct (_ <=? todo)%nat; [reflexivity|].
    unfold set_rd; simpl. do 3 f_equal. lia.
Qed.

Lemma legacy_pkt_read_config cnt b s :
  legacy_pkt_read UART_PKT_DEV_CONFIG cnt b s = legacy_config_read cnt b s.
Proof. reflexivity. Qed.

Lemma legacy_pkt_write_config cnt b s :
  legacy_pkt_write UART_PKT_DEV_CONFIG cnt b s = legacy_config_write cnt b s.
Proof. reflexivity. Qed.

(** C6. In a config read, as soon as [n] reaches the length of the
    parameter being served the read engine is back at its initial values
    ([CONFIG_UNKNOWN], 0, 0) and the loop is left: with [left] tuples
    needed to complete the parameter and at least that many in the
    frame, every response byte from tuple [left] on is as the caller
    set it. *)
Theorem config_read_stops_at_completion (cnt : Z) (b : pkt_buf) (s : state) :
  let x := rd s in
  let p := if n x =? 0 then lookup_param (byte_at (req b) PAYLOAD_IDX)
           else param x in
  let left := if n x =? 0 then Z.max 1 (len (info p))
              else len (info p) - n x in
  n x = 0 \/ 1 <= n x < len (info (param x)) ->
  left <= cnt ->
  rd (snd (legacy_config_read cnt b s)) = rd_init /\
  (forall j, (PAYLOAD_IDX + 2 * Z.to_nat left <= j)%nat ->
     resp (fst (legacy_config_read cnt b s)) !! j = resp b !! j).
Proof.
  intros x p left Hinv Hcnt. subst x p left.
  destruct Hinv as [H0 | Hbusy].
  - rewrite H0 in *. cbn [Z.eqb] in *.
    set (p := lookup_param (byte_at (req b) PAYLOAD_IDX)) in *.
    rewrite legacy_config_read_idle by lia. cbv zeta. fold p.
    destruct (Nat.leb_spec (Z.to_nat (Z.max 1 (len (info p)))) (Z.to_nat cnt));
      [|lia].
    split; [reflexivity|]. intros j Hj. cbn [fst resp].
    apply served_lookup_outside. lia.
  - assert (Hne : (n (rd s) =? 0) = false) by (apply Z.eqb_neq; lia).
    rewrite Hne in *.
    unfold legacy_config_read. rewrite config_read_loop_resume by exact Hbusy.
    cbv zeta.
    destruct (Nat.leb_spec (Z.to_nat (len (info (param (rd s))) - n (rd s)))
                           (Z.to_nat cnt)); [|lia].
    split; [reflexivity|]. intros j Hj. cbn [fst resp].
    apply served_lookup_outside. lia.
Qed.

(** C9. A config access on an idle engine whose first address lies in no
    range resolves to [CONFIG_UNKNOWN], of length zero.  A read of at
    least one tuple calls no driver, answers the one tuple it serves with
    data byte 0xFF (the low byte of the all-ones value) and leaves the
    read engine idle.  A write reaches the default branch of
    [perform_config_write]: no driver is called and the response is
    untouched. *)
Theorem config_unknown_address (cnt : Z) (b : pkt_buf) (s : state) :
  let addr := byte_at (req b) PAYLOAD_IDX in
  (forall k e, config_params !! k = Some e -> ~ contains e addr) ->
  lookup_param addr = CONFIG_UNKNOWN /\ len (info CONFIG_UNKNOWN) = 0 /\
  perform_config_read CONFIG_UNKNOWN s = (2 ^ 64 - 1, s) /\
  (n (rd s) = 0 -> 1 <= cnt ->
   legacy_pkt_read UART_PKT_DEV_CONFIG cnt b s =
     ({| req := req b;
         resp := <[DATA_IDX := 0xFF]>
                   (<[ADDR_IDX := u8 (addr - 255)]> (resp b)) |},
      set_rd s rd_init)) /\
  (n (wr s) = 0 ->
   forall v, perform_config_write CONFIG_UNKNOWN v s = s /\
   legacy_pkt_write UART_PKT_DEV_CONFIG cnt b s =
     (b, set_wr s {| param := CONFIG_UNKNOWN; n := 0; payload := 0 |})).
Proof.
  intros addr Hout.
  assert (Hl : lookup_param addr = CONFIG_UNKNOWN).
  { apply lookup_from_miss. intros k e Hk.
    apply in_range_not_contains. eauto. }
  split; [exact Hl|]. split; [reflexivity|]. split; [reflexivity|]. split.
  - intros Hn Hc. rewrite legacy_pkt_read_config.
    rewrite legacy_config_read_idle by assumption.
    cbv zeta. fold addr. rewrite Hl.
    change (Z.to_nat (Z.max 1 (len (info CONFIG_UNKNOWN)))) with 1%nat.
    destruct (Nat.leb_spec 1 (Z.to_nat cnt)); [|lia]. reflexivity.
  - intros Hn v. split; [reflexivity|].
    rewrite legacy_pkt_write_config.
    unfold legacy_config_write, config_write_gather.
    fold addr. rewrite Hl, Hn. cbn [Z.eqb].
    assert (Hloop : forall todo,
      config_write_loop todo PAYLOAD_IDX PAYLOAD_IDX b
        (set_wr s {| param := CONFIG_UNKNOWN; n := 0; payload := payload (wr s) |})
      = (b, set_wr s {| param := CONFIG_UNKNOWN; n := 0; payload := payload (wr s) |})).
    { intros [|todo]; reflexivity. }
    rewrite Hloop. reflexivity.
Qed.

(** C5. A parameter longer than the seven tuples a frame can carry (the
    two 8-byte timestamps) is read in two frames.  From an idle engine, a
    first frame of [c1] tuples (1 to 7) calls [time_tamer_read] once,
    answers tuple [i] with byte [i] of the value and leaves the engine at
    [n = c1], not finished; a second frame with at least [8 - c1] tuples
    answers its tuple [i] with byte [c1 + i], calls no driver and leaves
    the engine idle. *)
Theorem timestamp_read_two_frames (c1 c2 : Z) (b1 b2 : pkt_buf) (s : state) :
  let p := lookup_param (byte_at (req b1) PAYLOAD_IDX) in
  7 < len (info p) ->
  n (rd s) = 0 ->
  1 <= c1 <= 7 -> 8 - c1 <= c2 <= 7 ->
  (16 <= length (resp b1))%nat -> (16 <= length (resp b2))%nat ->
  let r1 := legacy_config_read c1 b1 s in
  let r2 := legacy_config_read c2 b2 (snd r1) in
  exists m v,
    p = timestamp_param m /\
    v = u64 (dev_read (trace s) (time_tamer_read m)) /\
    (forall i, (i < Z.to_nat c1)%nat ->
       resp (fst r1) !! (PAYLOAD_IDX + 2 * i)%nat
         = Some (u8 (byte_at (req b1) (PAYLOAD_IDX + 2 * i) - start (info p)))
       /\ resp (fst r1) !! (PAYLOAD_IDX + 2 * i + 1)%nat
         = Some (byte_of v (Z.of_nat i))) /\
    rd (snd r1) = {| param := p; n := c1; payload := v |} /\
    trace (snd r1) = time_tamer_read m :: trace s /\
    (forall i, (i < Z.to_nat (8 - c1))%nat ->
       resp (fst r2) !! (PAYLOAD_IDX + 2 * i)%nat
         = Some (u8 (byte_at (req b2) (PAYLOAD_IDX + 2 * i) - start (info p)))
       /\ resp (fst r2) !! (PAYLOAD_IDX + 2 * i + 1)%nat
         = Some (byte_of v (c1 + Z.of_nat i))) /\
    rd (snd r2) = rd_init /\
    trace (snd r2) = time_tamer_read m :: trace s.
Proof.
  intros p Hlen Hn Hc1 Hc2 Hl1 Hl2 r1 r2.
  assert (Hp : exists m, p = timestamp_param m).
  { destruct p; simpl in Hlen; try lia;
      [exists BLADERF_MODULE_RX | exists BLADERF_MODULE_TX]; reflexivity. }
  destruct Hp as [m Hp].
  exists m, (u64 (dev_read (trace s) (time_tamer_read m))).
  split; [exact Hp|]. split; [reflexivity|].
  assert (Hr1 : r1 =
    ({| req := req b1;
        resp := served (Z.to_nat c1) PAYLOAD_IDX PAYLOAD_IDX p
                  (u64 (dev_read (trace s) (time_tamer_read m))) 0
                  (req b1) (resp b1) |},
     set_rd (emit (time_tamer_read m) s)
       {| param := p; n := c1;
          payload := u64 (dev_read (trace s) (time_tamer_read m)) |})).
  { subst r1. rewrite legacy_config_read_idle by lia. cbv zeta. fold p.
    rewrite Hp.
    destruct (Nat.leb_spec (Z.to_nat (Z.max 1 (len (info (timestamp_param m)))))
                           (Z.to_nat c1)) as [Hle|_].
    - destruct m; simpl in Hle; lia.
    - destruct m; reflexivity. }
  assert (Hr2 : r2 =
    ({| req := req b2;
        resp := served (Z.to_nat (8 - c1)) PAYLOAD_IDX PAYLOAD_IDX p
                  (u64 (dev_read (trace s) (time_tamer_read m))) c1
                  (req b2) (resp b2) |},
     set_rd (emit (time_tamer_read m) s) rd_init)).
  { subst r2. rewrite Hr1. cbn [snd]. unfold legacy_config_read.
    assert (H8 : len (info p) = 8) by (rewrite Hp; destruct m; reflexivity).
    rewrite config_read_loop_resume by (simpl; lia).
    cbn [rd set_rd param n payload]. rewrite H8.
    destruct (Nat.leb_spec (Z.to_nat (8 - c1)) (Z.to_nat c2)); [|lia].
    reflexivity. }
  rewrite Hr1, Hr2. cbn [fst snd resp rd trace set_rd emit].
  repeat split.
  - apply served_lookup_addr; unfold PAYLOAD_IDX; lia.
  - rewrite served_lookup_data by (unfold PAYLOAD_IDX; lia). reflexivity.
  - apply served_lookup_addr; unfold PAYLOAD_IDX; lia.
  - apply served_lookup_data; unfold PAYLOAD_IDX; lia.
Qed.

(** ** The write engine *)

Lemma perform_config_write_rd p v s : rd (perform_config_write p v s) = rd s.
Proof. destruct p; reflexivity. Qed.

Lemma perform_config_write_wr p v s : wr (perform_config_write p v s) = wr s.
Proof. destruct p; reflexivity. Qed.

(** The gathering loop changes the write engine only: [n] grows by one
    per iteration up to the length, and when [n] did not move neither did
    [payload]. *)
Lemma config_write_loop_inv todo : forall rq rs b s,
  0 <= n (wr s) <= len (info (param (wr s))) ->
  let r := config_write_loop todo rq rs b s in
  rd (snd r) = rd s /\ trace (snd r) = trace s /\
  param (wr (snd r)) = param (wr s) /\
  n (wr s) <= n (wr (snd r)) <= len (info (param (wr s))) /\
  (n (wr (snd r)) = n (wr s) -> payload (wr (snd r)) = payload (wr s)).
Proof.
  induction todo as [|todo IH]; intros rq rs b s Hn; cbn [config_write_loop].
  - cbv zeta. cbn [snd]. repeat split; lia.
  - cbv zeta.
    destruct (Z.ltb_spec (n (wr s)) (len (info (param (wr s))))) as [Hlt|Hge].
    + pose proof (len_info_bound (param (wr s))) as Hb.
      assert (Hu : u8 (n (wr s) + 1) = n (wr s) + 1).
      { unfold u8. apply Z.mod_small. lia. }
      match goal with
      | |- context [config_write_loop todo ?q ?r ?b' ?s'] =>
          specialize (IH q r b' s')
      end.
      cbn [wr set_wr n param rd trace] in IH. rewrite Hu in IH. rewrite Hu.
      destruct (IH ltac:(lia)) as (Hrd & Htr & Hp & Hnn & _).
      repeat split; try assumption; try lia.
    + cbn [snd]. repeat split; lia.
Qed.

Lemma legacy_config_write_ok cnt b s :
  wr_ok (wr s) ->
  rd (snd (legacy_config_write cnt b s)) = rd s /\
  wr_ok (wr (snd (legacy_config_write cnt b s))).
Proof.
  intros Hok. unfold legacy_config_write, config_write_gather.
  set (s0 := if n (wr s) =? 0 then _ else s).
  assert (H0 : rd s0 = rd s /\ n (wr s0) = n (wr s) /\
               payload (wr s0) = payload (wr s) /\
               0 <= n (wr s0) <= len (info (param (wr s0)))).
  { subst s0. destruct (Z.eqb_spec (n (wr s)) 0) as [Hz|Hnz];
      cbn [rd wr n param payload set_wr].
    - pose proof (len_info_bound
        (lookup_param (byte_at (req b) PAYLOAD_IDX))). repeat split; lia.
    - destruct Hok as [[Hz _]|Hb]; [contradiction|]. repeat split; lia. }
  destruct H0 as (Hrd0 & Hn0 & Hp0 & Hb0).
  pose proof (config_write_loop_inv (Z.to_nat cnt) PAYLOAD_IDX PAYLOAD_IDX
                b s0 Hb0) as Hloop.
  destruct (config_write_loop _ _ _ b s0) as [b1 s1].
  cbv zeta in Hloop. cbn [snd] in Hloop.
  destruct Hloop as (Hrd & Htr & Hp & Hn & Hpay).
  cbn [snd]. unfold config_write_flush.
  destruct (Z.geb_spec (n (wr s1)) (len (info (param (wr s1))))) as [Hge|Hlt].
  - cbn [rd wr set_wr]. rewrite perform_config_write_rd.
    split; [congruence|]. left. split; reflexivity.
  - split; [congruence|].
    destruct (Z.eq_dec (n (wr s1)) 0) as [Hz|Hnz].
    + left. split; [exact Hz|].
      destruct Hok as [[Hz' Hpz]|Hb]; [|lia].
      rewrite Hpay by lia. congruence.
    + right. rewrite Hp in Hlt. rewrite Hp. lia.
Qed.

Lemma legacy_config_read_ok cnt b s :
  rd_ok (rd s) -> rd_ok (rd (snd (legacy_config_read cnt b s))).
Proof.
  intros Hok.
  destruct (Z.le_gt_cases cnt 0) as [Hle|Hgt].
  - unfold legacy_config_read.
    replace (Z.to_nat cnt) with 0%nat by lia. exact Hok.
  - destruct Hok as [Hidle|Hbusy].
    + rewrite legacy_config_read_idle by (rewrite ?Hidle; simpl; lia).
      cbv zeta. case_leb.
      * now left.
      * right. cbn [snd rd set_rd n param]. lia.
    + unfold legacy_config_read.
      rewrite config_read_loop_resume by exact Hbusy. cbv zeta.
      case_leb.
      * now left.
      * right. cbn [snd rd set_rd n param]. lia.
Qed.

Lemma legacy_pkt_read_ok dev cnt b s :
  rd_ok (rd s) -> rd_ok (rd (snd (legacy_pkt_read dev cnt b s))).
Proof.
  intros Hok. unfold legacy_pkt_read.
  destruct (dev =? UART_PKT_DEV_LMS); [exact Hok|].
  destruct (dev =? UART_PKT_DEV_SI5338); [exact Hok|].
  destruct (dev =? UART_PKT_DEV_CONFIG); [|exact Hok].
  now apply legacy_config_read_ok.
Qed.

Lemma legacy_pkt_write_ok dev cnt b s :
  wr_ok (wr s) ->
  rd (snd (legacy_pkt_write dev cnt b s)) = rd s /\
  wr_ok (wr (snd (legacy_pkt_write dev cnt b s))).
Proof.
  intros Hok. unfold legacy_pkt_write.
  destruct (dev =? UART_PKT_DEV_LMS); [split; [reflexivity|exact Hok]|].
  destruct (dev =? UART_PKT_DEV_SI5338); [split; [reflexivity|exact Hok]|].
  destruct (dev =? UART_PKT_DEV_CONFIG); [|split; [reflexivity|exact Hok]].
  now apply legacy_config_write_ok.
Qed.

Lemma pkt_legacy_ok b s :
  rd_ok (rd s) /\ wr_ok (wr s) ->
  rd_ok (rd (snd (pkt_legacy b s))) /\ wr_ok (wr (snd (pkt_legacy b s))).
Proof.
  intros [Hr Hw]. unfold pkt_legacy.
  destruct (is_read _).
  - split; [now apply legacy_pkt_read_ok|].
    destruct (legacy_pkt_read_reads_only
                (dev_id (byte_at (req b) PKT_CFG_IDX))
                (count (byte_at (req b) PKT_CFG_IDX)) b s) as [-> _].
    exact Hw.
  - destruct (is_write _); [|now split].
    destruct (legacy_pkt_write_ok
                (dev_id (byte_at (req b) PKT_CFG_IDX))
                (count (byte_at (req b) PKT_CFG_IDX)) b s Hw) as [-> Hw'].
    now split.
Qed.

(** C4 (as amended).  The read path and the write path each keep their
    own transfer state.  In every state the firmware can reach, the read
    state is idle or holds a partly served parameter, and the write state
    holds nothing or a partly gathered parameter; a frame handled as a
    read leaves the write state as it was, and any other frame leaves the
    read state as it was. *)
Theorem transfer_states_separate (s : state) :
  reachable s ->
  rd_ok (rd s) /\ wr_ok (wr s) /\
  forall b, let cfg := byte_at (req b) PKT_CFG_IDX in
    (is_read cfg = true -> wr (snd (pkt_legacy b s)) = wr s) /\
    (is_read cfg = false -> rd (snd (pkt_legacy b s)) = rd s).
Proof.
  intros Hreach.
  assert (Hinv : rd_ok (rd s) /\ wr_ok (wr s)).
  { induction Hreach as [|b s Hreach IH].
    - split; left; [reflexivity | split; reflexivity].
    - now apply pkt_legacy_ok. }
  destruct Hinv as [Hr Hw]. split; [exact Hr|]. split; [exact Hw|].
  intros b cfg. unfold pkt_legacy. fold cfg. split; intros Hdir; rewrite Hdir.
  - apply legacy_pkt_read_reads_only.
  - destruct (is_write cfg); [|reflexivity].
    now apply legacy_pkt_write_ok.
Qed.

(** *** The shift of the data byte is done in [int] *)

Lemma byte_of_lor a b k :
  0 <= k -> byte_of (Z.lor a b) k = Z.lor (byte_of a k) (byte_of b k).
Proof.
  intros Hk. unfold byte_of, u8.
  rewrite Z.shiftr_lor, <- !Z.land_ones by lia.
  apply Z.land_lor_distr_l.
Qed.

Lemma s32_range y : - 2 ^ 31 <= s32 y < 2 ^ 31.
Proof.
  unfold s32. pose proof (Z.mod_pos_bound (y + 2 ^ 31) (2 ^ 32)). lia.
Qed.

Lemma byte4_extended_int y : byte4_extended (u64 (s32 y)).
Proof.
  pose proof (s32_range y) as Hr. unfold byte4_extended, byte_of, u8, u64.
  rewrite Z.shiftr_div_pow2 by lia. change (4 * 8) with 32.
  destruct (Z.lt_ge_cases (s32 y) 0) as [Hneg|Hpos].
  - right.
    replace (s32 y mod 2 ^ 64) with (s32 y + 2 ^ 64)
      by (apply Z.mod_unique with (-1); lia).
    replace ((s32 y + 2 ^ 64) / 2 ^ 32) with (2 ^ 32 - 1)
      by (apply Z.div_unique with (s32 y + 2 ^ 32); lia).
    reflexivity.
  - left. rewrite (Z.mod_small (s32 y)) by lia.
    rewrite Z.div_small by lia. reflexivity.
Qed.

Lemma byte4_extended_lor a b :
  byte4_extended a -> byte4_extended b -> byte4_extended (Z.lor a b).
Proof.
  unfold byte4_extended. rewrite byte_of_lor by lia.
  intros [-> | ->] [-> | ->]; auto.
Qed.

Lemma config_write_loop_byte4 todo : forall rq rs b s,
  byte4_extended (payload (wr s)) ->
  byte4_extended (payload (wr (snd (config_write_loop todo rq rs b s)))).
Proof.
  induction todo as [|todo IH]; intros rq rs b s Hs; cbn [config_write_loop].
  - exact Hs.
  - cbv zeta. destruct (_ <? _); [|exact Hs].
    apply IH. cbn [wr set_wr payload].
    apply byte4_extended_lor; [exact Hs|].
    unfold int_shl. destruct (_ <? 32); apply byte4_extended_int.
Qed.

Lemma config_write_gather_byte4 cnt b s :
  byte4_extended (payload (wr s)) ->
  byte4_extended (payload (wr (snd (config_write_gather cnt b s)))).
Proof.
  intros Hs. unfold config_write_gather.
  apply config_write_loop_byte4. now destruct (_ =? 0).
Qed.

Lemma legacy_config_write_byte4 cnt b s :
  byte4_extended (payload (wr s)) ->
  byte4_extended (payload (wr (snd (legacy_config_write cnt b s)))).
Proof.
  intros Hs. unfold legacy_config_write.
  pose proof (config_write_gather_byte4 cnt b s Hs) as Hg.
  destruct (config_write_gather cnt b s) as [b1 s1].
  cbn [snd] in *. unfold config_write_flush.
  destruct (_ >=? _); [now left | exact Hg].
Qed.

(** C2 (where the code departs from it).  The RX timestamp is written
    from the initial state in two frames carrying the data bytes 0x01,
    0x02, 0x04, ..., 0x80.  After the second frame is gathered the write
    engine holds that parameter with [n] at its length 8, so [payload] is
    what [perform_config_write] is handed; its byte 4 is not the data
    byte 0x10 that was received fifth.  This holds whatever the target
    yields for an [int] shifted by 32 or more. *)
Theorem config_write_wide_bytes_lost :
  let s1 := snd (legacy_config_write 7 ts_write_frame1 init) in
  let s2 := snd (config_write_gather 1 ts_write_frame2 s1) in
  param (wr s2) = CONFIG_RX_TIMESTAMP /\
  n (wr s2) = len (info CONFIG_RX_TIMESTAMP) /\
  byte_at (req ts_write_frame1) (DATA_IDX + 2 * 4) = 0x10 /\
  byte_of (payload (wr s2)) 4 <> 0x10.
Proof.
  intros s1 s2.
  split; [reflexivity|]. split; [reflexivity|]. split; [reflexivity|].
  assert (H : byte4_extended (payload (wr s2))).
  { apply config_write_gather_byte4, legacy_config_write_byte4. now left. }
  destruct H as [H | H]; rewrite H; discriminate.
Qed.

(** *** Parameters of up to four bytes are assembled as sent *)

(** A data byte shifted in [int] by 0, 8, 16 or 24 lands on that byte of
    the 64-bit word and leaves the other three low bytes clear.  Checked
    on all 256 byte values. *)
Lemma byte_of_int_shl d j k :
  0 <= d < 256 -> 0 <= j < 4 -> 0 <= k < 4 ->
  byte_of (u64 (int_shl d (j * 8))) k = if k =? j then d else 0.
Proof.
  intros Hd Hj Hk.
  assert (Hall : forallb (fun d' =>
            forallb (fun j' =>
              forallb (fun k' =>
                byte_of (u64 (s32 (d' * 2 ^ (j' * 8)))) k'
                  =? (if k' =? j' then d' else 0))
                [0; 1; 2; 3]) [0; 1; 2; 3])
            (map Z.of_nat (seq 0 256)) = true) by (vm_compute; reflexivity).
  rewrite forallb_forall in Hall.
  assert (Hin : In d (map Z.of_nat (seq 0 256))).
  { apply in_map_iff. exists (Z.to_nat d). split; [lia|].
    apply in_seq. lia. }
  specialize (Hall d Hin). rewrite forallb_forall in Hall.
  assert (Hj' : In j [0; 1; 2; 3]) by (simpl; lia).
  specialize (Hall j Hj'). rewrite forallb_forall in Hall.
  assert (Hk' : In k [0; 1; 2; 3]) by (simpl; lia).
  specialize (Hall k Hk'). apply Z.eqb_eq in Hall.
  unfold int_shl. destruct (Z.ltb_spec (j * 8) 32); [exact Hall | lia].
Qed.

Lemma byte_of_0 k : byte_of 0 k = 0.
Proof. unfold byte_of. now rewrite Z.shiftr_0_l. Qed.

Lemma byte_at_range l i : 0 <= byte_at l i < 256.
Proof. unfold byte_at, u8. apply Z.mod_pos_bound. reflexivity. Qed.

(** The gathering loop on a parameter of at most four bytes, from any
    point of the transfer: [n] advances to the length or by the number of
    tuples, the bytes gathered before stay, each new tuple's data byte
    becomes the next byte of [payload], and the bytes not yet reached
    (below byte 4) stay clear. *)
Lemma config_write_loop_bytes todo : forall rq rs b s,
  0 <= n (wr s) <= len (info (param (wr s))) ->
  len (info (param (wr s))) <= 4 ->
  (forall k, n (wr s) <= k < 4 -> byte_of (payload (wr s)) k = 0) ->
  let s' := snd (config_write_loop todo rq rs b s) in
  n (wr s') = Z.min (len (info (param (wr s)))) (n (wr s) + Z.of_nat todo) /\
  (forall k, 0 <= k < n (wr s) ->
     byte_of (payload (wr s')) k = byte_of (payload (wr s)) k) /\
  (forall i : nat, n (wr s) + Z.of_nat i < n (wr s') ->
     byte_of (payload (wr s')) (n (wr s) + Z.of_nat i)
       = byte_at (req b) (rq + 2 * i + 1)) /\
  (forall k, n (wr s') <= k < 4 -> byte_of (payload (wr s')) k = 0).
Proof.
  induction todo as [|todo IH]; intros rq rs b s Hn Hlen Hclear;
    cbn [config_write_loop]; cbv zeta.
  - cbn [snd]. repeat split; intros; try lia; auto.
  - destruct (Z.ltb_spec (n (wr s)) (len (info (param (wr s))))) as [Hlt|Hge].
    + assert (Hu : u8 (n (wr s) + 1) = n (wr s) + 1).
      { unfold u8. apply Z.mod_small. lia. }
      rewrite Hu.
      set (d := byte_at (req b) (rq + 1)).
      set (t := u64 (int_shl d (n (wr s) * 8))).
      assert (Hd : 0 <= d < 256) by apply byte_at_range.
      assert (Ht : forall k, 0 <= k < 4 ->
                byte_of t k = if k =? n (wr s) then d else 0).
      { intros k Hk. apply byte_of_int_shl; lia. }
      match goal with
      | |- context [config_write_loop todo ?q ?r ?b' ?s'] =>
          specialize (IH q r b' s')
      end.
      cbn [wr set_wr n param payload req set_resp] in IH.
      destruct IH as (IHn & IHold & IHnew & IHclear); [lia | lia | |].
      { intros k Hk. rewrite byte_of_lor by lia.
        rewrite Hclear by lia. rewrite Ht by lia.
        destruct (Z.eqb_spec k (n (wr s))); [lia | reflexivity]. }
      assert (Hkeep : forall k, 0 <= k < 4 ->
                byte_of (Z.lor (payload (wr s)) t) k
                = if k =? n (wr s) then d else byte_of (payload (wr s)) k).
      { intros k Hk. rewrite byte_of_lor by lia. rewrite Ht by lia.
        destruct (Z.eqb_spec k (n (wr s))) as [->|Hne].
        - rewrite Hclear by lia. reflexivity.
        - apply Z.lor_0_r. }
      split; [rewrite IHn; lia|]. split; [|split].
      * intros k Hk. rewrite IHold by lia. rewrite Hkeep by lia.
        destruct (Z.eqb_spec k (n (wr s))); [lia | reflexivity].
      * intros i Hi. destruct i as [|i].
        -- replace (n (wr s) + Z.of_nat 0) with (n (wr s)) by lia.
           rewrite IHold by lia. rewrite Hkeep by lia.
           rewrite Z.eqb_refl. subst d. f_equal. lia.
        -- replace (n (wr s) + Z.of_nat (S i))
             with (n (wr s) + 1 + Z.of_nat i) by lia.
           rewrite IHnew by lia. f_equal. lia.
      * exact IHclear.
    + cbn [snd]. repeat split; intros; try lia; auto.
Qed.

(** For a parameter of one to four bytes written in one frame from an
    idle write engine, what [perform_config_write] is handed has the
    frame's data bytes as its bytes 0, 1, ..., least significant first:
    here the code does what C2 says. *)
Lemma config_write_short_assembles cnt b s :
  let p := lookup_param (byte_at (req b) PAYLOAD_IDX) in
  n (wr s) = 0 -> payload (wr s) = 0 ->
  1 <= len (info p) <= 4 -> len (info p) <= cnt ->
  let s1 := snd (config_write_gather cnt b s) in
  param (wr s1) = p /\ n (wr s1) = len (info p) /\
  (forall i : nat, Z.of_nat i < len (info p) ->
     byte_of (payload (wr s1)) (Z.of_nat i)
       = byte_at (req b) (DATA_IDX + 2 * i)) /\
  wr (config_write_flush s1) = {| param := p; n := 0; payload := 0 |}.
Proof.
  intros p Hn Hp Hlen Hcnt s1. subst s1. unfold config_write_gather.
  rewrite Hn. cbn [Z.eqb]. fold p. rewrite Hp.
  set (s0 := set_wr s {| param := p; n := 0; payload := 0 |}).
  assert (Hb0 : 0 <= n (wr s0) <= len (info (param (wr s0))))
    by (unfold s0; cbn [wr set_wr n param]; lia).
  pose proof (config_write_loop_inv (Z.to_nat cnt) PAYLOAD_IDX PAYLOAD_IDX
                b s0 Hb0) as (_ & _ & Hpar & _ & _).
  pose proof (config_write_loop_bytes (Z.to_nat cnt) PAYLOAD_IDX PAYLOAD_IDX
                b s0 Hb0) as Hbytes.
  cbv zeta in Hbytes.
  destruct Hbytes as (Hn1 & _ & Hnew & _).
  { unfold s0; cbn [wr set_wr n param]; lia. }
  { intros k Hk. unfold s0; cbn [wr set_wr payload]. apply byte_of_0. }
  set (s1 := snd (config_write_loop _ _ _ b s0)) in *.
  change (param (wr s0)) with p in *. change (n (wr s0)) with 0 in *.
  assert (Hn1' : n (wr s1) = len (info p)) by lia.
  split; [exact Hpar|]. split; [exact Hn1'|]. split.
  - intros i Hi. specialize (Hnew i). rewrite Z.add_0_l in Hnew.
    rewrite Hnew by lia. f_equal. unfold DATA_IDX, ADDR_IDX, PAYLOAD_IDX. lia.
  - unfold config_write_flush. rewrite Hpar, Hn1'.
    destruct (Z.geb_spec (len (info p)) (len (info p))); [|lia].
    rewrite perform_config_write_wr || cbn [wr set_wr]. reflexivity.
Qed.

Lemma serve_reachable frames : forall s,
  reachable s -> reachable (snd (serve frames s)).
Proof.
  induction frames as [|b frames IH]; intros s Hs; cbn [serve].
  - exact Hs.
  - pose proof (reachable_step b s Hs) as Hstep.
    destruct (pkt_legacy b s) as [b' s']. cbn [snd] in Hstep.
    specialize (IH s' Hstep).
    destruct (serve frames s') as [bs s'']. exact IH.
Qed.

(** ** Further properties of the address map and of the control byte *)

Ltac case_in_range :=
  repeat match goal with
  | |- context [if (?a <=? ?b) && (?c >? ?d) then _ else _] =>
      destruct (Z.leb_spec a b); destruct (Z.gtb_spec c d);
      cbn [andb]; try lia
  end.

(** Either the address lies in the range of the parameter found, or no
    parameter is found and the address is one of those the table leaves
    out. *)
Lemma lookup_param_cases addr :
  contains (info (lookup_param addr)) addr \/
  (lookup_param addr = CONFIG_UNKNOWN /\
   (addr < 0 \/ 32 <= addr < 34 \/ 48 <= addr)).
Proof.
  unfold lookup_param. cbn [lookup_from config_params].
  unfold in_range. cbn [start len]. case_in_range;
    first [ left; unfold contains; cbn; lia
          | right; split; [reflexivity | lia] ].
Qed.

(** Looking up an address and looking up a parameter's range are
    inverse to each other: an address resolves to a parameter other than
    [CONFIG_UNKNOWN] exactly when it lies in that parameter's range. *)
Theorem lookup_param_iff_in_range (p : config_param) (addr : Z) :
  p <> CONFIG_UNKNOWN ->
  (lookup_param addr = p <-> contains (info p) addr).
Proof.
  intros Hp. split.
  - intros <-. destruct (lookup_param_cases addr) as [H | [H _]];
      [exact H | contradiction].
  - intros Hc. destruct (lookup_param_cases addr) as [H | [_ H]].
    + revert H. generalize (lookup_param addr). intros q Hq.
      destruct p, q; unfold contains in *; cbn in *;
        first [reflexivity | lia].
    + destruct p; unfold contains in Hc; cbn in Hc;
        first [lia | contradiction].
Qed.

(** The addresses that resolve to no parameter are 32, 33 and everything
    from 48 up (and, outside the range of a byte, everything below 0). *)
Theorem lookup_param_unknown_iff (addr : Z) :
  lookup_param addr = CONFIG_UNKNOWN <->
  (addr < 0 \/ 32 <= addr < 34 \/ 48 <= addr).
Proof.
  split.
  - intros Hu. destruct (lookup_param_cases addr) as [H | [_ H]]; [|exact H].
    rewrite Hu in H. unfold contains in H. cbn in H. lia.
  - intros Ha. destruct (lookup_param_cases addr) as [H | [H _]]; [|exact H].
    revert H. generalize (lookup_param addr). intros q Hq.
    destruct q; unfold contains in Hq; cbn in Hq;
      first [reflexivity | lia].
Qed.

(** Every byte splits into the fields [pkt_legacy] decodes and the one
    bit it ignores (bit 3): the count is 0 to 7, the device selector is
    one of four values, and the fields determine the byte. *)
Theorem cfg_fields (cfg : Z) :
  0 <= cfg < 256 ->
  0 <= count cfg <= 7 /\
  (dev_id cfg = UART_PKT_DEV_CONFIG \/ dev_id cfg = UART_PKT_DEV_LMS \/
   dev_id cfg = Z.shiftl 2 UART_PKT_MODE_DEV_SHIFT \/
   dev_id cfg = UART_PKT_DEV_SI5338) /\
  cfg = (if is_read cfg then UART_PKT_MODE_DIR_READ else 0)
        + (if is_write cfg then UART_PKT_MODE_DIR_WRITE else 0)
        + dev_id cfg + Z.land cfg 8 + count cfg.
Proof.
  intros Hc.
  assert (Hall : forallb (fun c =>
      (0 <=? count c) && (count c <=? 7) &&
      ((dev_id c =? UART_PKT_DEV_CONFIG) || (dev_id c =? UART_PKT_DEV_LMS)
       || (dev_id c =? Z.shiftl 2 UART_PKT_MODE_DEV_SHIFT)
       || (dev_id c =? UART_PKT_DEV_SI5338)) &&
      (c =? (if is_read c then UART_PKT_MODE_DIR_READ else 0)
            + (if is_write c then UART_PKT_MODE_DIR_WRITE else 0)
            + dev_id c + Z.land c 8 + count c))
      (map Z.of_nat (seq 0 256)) = true) by (vm_compute; reflexivity).
  rewrite forallb_forall in Hall.
  assert (Hin : In cfg (map Z.of_nat (seq 0 256))).
  { apply in_map_iff. exists (Z.to_nat cfg). split; [lia|].
    apply in_seq. lia. }
  specialize (Hall cfg Hin).
  rewrite !andb_true_iff, !orb_true_iff in Hall.
  rewrite !Z.eqb_eq, !Z.leb_le in Hall.
  destruct Hall as [[[H1 H2] H3] H4].
  split; [lia|]. split; [|exact H4].
  destruct H3 as [[[H|H]|H]|H]; auto.
Qed.

(** ** What a frame can touch *)

Lemma count_bound c : 0 <= c -> 0 <= count c <= 7.
Proof.
  intros Hc. unfold count, UART_PKT_MODE_CNT_MASK.
  change 7 with (Z.ones 3) at 1 2. rewrite Z.land_ones by lia.
  pose proof (Z.mod_pos_bound c (2 ^ 3)). lia.
Qed.

Lemma config_read_loop_frame todo : forall rq rs b s,
  let r := config_read_loop todo rq rs b s in
  req (fst r) = req b /\
  length (resp (fst r)) = length (resp b) /\
  (forall j, (j < rs \/ rs + 2 * todo <= j)%nat ->
     resp (fst r) !! j = resp b !! j).
Proof.
  induction todo as [|todo IH]; intros rq rs b s; cbn [config_read_loop].
  - cbv zeta. cbn [fst]. auto.
  - cbv zeta. destruct (_ >=? _).
    + cbn [fst set_resp req resp]. rewrite !length_insert.
      repeat split. intros j Hj.
      rewrite !list_lookup_insert_ne by lia. reflexivity.
    + match goal with
      | |- context [config_read_loop todo ?q ?r ?b' ?s'] =>
          destruct (IH q r b' s') as (Hreq & Hlen & Hout)
      end.
      cbn [set_resp req resp] in Hreq, Hlen, Hout.
      rewrite !length_insert in Hlen.
      split; [exact Hreq|]. split; [exact Hlen|].
      intros j Hj. rewrite Hout by lia.
      rewrite !list_lookup_insert_ne by lia. reflexivity.
Qed.

Lemma config_write_loop_frame todo : forall rq rs b s,
  let r := config_write_loop todo rq rs b s in
  req (fst r) = req b /\
  length (resp (fst r)) = length (resp b) /\
  (forall j, (j < rs \/ rs + 2 * todo <= j)%nat ->
     resp (fst r) !! j = resp b !! j).
Proof.
  induction todo as [|todo IH]; intros rq rs b s; cbn [config_write_loop].
  - cbv zeta. cbn [fst]. auto.
  - cbv zeta. destruct (_ <? _).
    + match goal with
      | |- context [config_write_loop todo ?q ?r ?b' ?s'] =>
          destruct (IH q r b' s') as (Hreq & Hlen & Hout)
      end.
      cbn [set_resp req resp] in Hreq, Hlen, Hout.
      rewrite !length_insert in Hlen.
      split; [exact Hreq|]. split; [exact Hlen|].
      intros j Hj. rewrite Hout by lia.
      rewrite !list_lookup_insert_ne by lia. reflexivity.
    + cbn [fst]. auto.
Qed.

Lemma legacy_pkt_frame (read : bool) dev cnt b s :
  0 <= cnt <= 7 ->
  let r := if read then legacy_pkt_read dev cnt b s
           else legacy_pkt_write dev cnt b s in
  req (fst r) = req b /\
  length (resp (fst r)) = length (resp b) /\
  (forall j, (j < PAYLOAD_IDX \/
              PAYLOAD_IDX + 2 * Z.to_nat (Z.max 1 cnt) <= j)%nat ->
     resp (fst r) !! j = resp b !! j).
Proof.
  intros Hcnt.
  assert (Hdirect : forall v w,
    req (set_resp (set_resp b ADDR_IDX v) DATA_IDX w) = req b /\
    length (resp (set_resp (set_resp b ADDR_IDX v) DATA_IDX w))
      = length (resp b) /\
    (forall j, (j < PAYLOAD_IDX \/
                PAYLOAD_IDX + 2 * Z.to_nat (Z.max 1 cnt) <= j)%nat ->
       resp (set_resp (set_resp b ADDR_IDX v) DATA_IDX w) !! j = resp b !! j)).
  { intros v w. cbn [set_resp req resp]. rewrite !length_insert.
    repeat split. intros j Hj. unfold DATA_IDX, ADDR_IDX, PAYLOAD_IDX in *.
    rewrite !list_lookup_insert_ne by lia. reflexivity. }
  destruct read; cbv zeta;
    unfold legacy_pkt_read, legacy_pkt_write, do_read;
    (destruct (dev =? UART_PKT_DEV_LMS); [apply Hdirect|]);
    (destruct (dev =? UART_PKT_DEV_SI5338); [apply Hdirect|]);
    (destruct (dev =? UART_PKT_DEV_CONFIG); [|cbn [fst]; auto]).
  - destruct (config_read_loop_frame (Z.to_nat cnt) PAYLOAD_IDX PAYLOAD_IDX
                b s) as (Hreq & Hlen & Hout).
    unfold legacy_config_read. split; [exact Hreq|]. split; [exact Hlen|].
    intros j Hj. apply Hout. lia.
  - unfold legacy_config_write, config_write_gather.
    match goal with
    | |- context [config_write_loop ?t ?q ?r b ?s'] =>
        destruct (config_write_loop_frame t q r b s') as (Hreq & Hlen & Hout);
        destruct (config_write_loop t q r b s') as [b1 s1]
    end.
    cbn [fst] in *. split; [exact Hreq|]. split; [exact Hlen|].
    intros j Hj. apply Hout. lia.
Qed.

(** Whatever the frame and whatever the state, [pkt_legacy] leaves the
    request as it is, keeps the length of the response, and stores only
    into the tuple slots the count field covers (the first slot for a
    count of 0 on the LMS and SI5338 devices): response bytes 0 and 1 and
    every byte from index 16 on are never written. *)
Theorem pkt_legacy_touches_tuple_slots_only (b : pkt_buf) (s : state) :
  let cfg := byte_at (req b) PKT_CFG_IDX in
  let r := pkt_legacy b s in
  req (fst r) = req b /\
  length (resp (fst r)) = length (resp b) /\
  (forall j, (j < PAYLOAD_IDX \/
              PAYLOAD_IDX + 2 * Z.to_nat (Z.max 1 (count cfg)) <= j)%nat ->
     resp (fst r) !! j = resp b !! j) /\
  (forall j, (j < 2 \/ 16 <= j)%nat -> resp (fst r) !! j = resp b !! j).
Proof.
  intros cfg r.
  assert (Hc : 0 <= count cfg <= 7).
  { apply count_bound. apply byte_at_range. }
  assert (H : req (fst r) = req b /\
              length (resp (fst r)) = length (resp b) /\
              (forall j, (j < PAYLOAD_IDX \/
                 PAYLOAD_IDX + 2 * Z.to_nat (Z.max 1 (count cfg)) <= j)%nat ->
                 resp (fst r) !! j = resp b !! j)).
  { subst r. unfold pkt_legacy. fold cfg. destruct (is_read cfg).
    - apply (legacy_pkt_frame true); exact Hc.
    - destruct (is_write cfg).
      + apply (legacy_pkt_frame false); exact Hc.
      + cbn [fst]. auto. }
  destruct H as (Hreq & Hlen & Hout).
  split; [exact Hreq|]. split; [exact Hlen|]. split; [exact Hout|].
  intros j Hj. apply Hout. unfold PAYLOAD_IDX. lia.
Qed.

(** ** The write engine, frame by frame *)

(** The gathering loop in closed form: it runs [m] times, the number of
    tuples or the number of bytes left, whichever is less; it answers
    each tuple with the relative address and a zero, and moves [n] by
    [m]. *)
Lemma config_write_loop_run todo : forall rq rs b s k,
  0 <= n (wr s) <= len (info (param (wr s))) ->
  let x := wr s in
  let m := Nat.min todo (Z.to_nat (len (info (param x)) - n x)) in
  let r := config_write_loop todo rq rs b s in
  req (fst r) = req b /\
  resp (fst r) = served m rq rs (param x) 0 k (req b) (resp b) /\
  rd (snd r) = rd s /\ trace (snd r) = trace s /\
  param (wr (snd r)) = param x /\ n (wr (snd r)) = n x + Z.of_nat m.
Proof.
  induction todo as [|todo IH]; intros rq rs b s k Hn;
    cbn [config_write_loop]; cbv zeta.
  - cbn [fst snd Nat.min served]. repeat split; lia.
  - destruct (Z.ltb_spec (n (wr s)) (len (info (param (wr s))))) as [Hlt|Hge].
    + pose proof (len_info_bound (param (wr s))) as Hb.
      assert (Hu : u8 (n (wr s) + 1) = n (wr s) + 1).
      { unfold u8. apply Z.mod_small. lia. }
      rewrite Hu.
      replace (Nat.min (S todo) (Z.to_nat (len (info (param (wr s))) - n (wr s))))
        with (S (Nat.min todo
                   (Z.to_nat (len (info (param (wr s))) - (n (wr s) + 1)))))
        by lia.
      match goal with
      | |- context [config_write_loop todo ?q ?r ?b' ?s'] =>
          specialize (IH q r b' s' (k + 1))
      end.
      cbn [wr set_wr n param rd trace req resp set_resp] in IH.
      destruct IH as (Hreq & Hresp & Hrd & Htr & Hp & Hnn); [lia|].
      cbn [served]. rewrite byte_of_0.
      repeat split; try assumption. lia.
    + replace (Z.to_nat (len (info (param (wr s))) - n (wr s))) with 0%nat
        by lia.
      rewrite Nat.min_0_r. cbn [fst snd served]. repeat split; lia.
Qed.

Lemma perform_config_write_trace p v s : forall s',
  trace s' = trace s ->
  trace (perform_config_write p v s') = trace (perform_config_write p v s).
Proof. intros s' H. destruct p; cbn; congruence. Qed.

Lemma perform_config_write_calls p v s :
  exists calls, trace (perform_config_write p v s) = calls ++ trace s /\
                (length calls <= 1)%nat.
Proof.
  destruct p;
    first [ exists []; split; [reflexivity | simpl; lia]
          | eexists [_]; split; [reflexivity | simpl; lia] ].
Qed.

Lemma perform_config_read_calls p s :
  exists calls, trace (snd (perform_config_read p s)) = calls ++ trace s /\
                (length calls <= 1)%nat.
Proof.
  destruct p;
    first [ exists []; split; [reflexivity | simpl; lia]
          | eexists [_]; split; [reflexivity | simpl; lia] ].
Qed.

(** One call of [legacy_config_write], with [p] the parameter it works
    on and [left] the bytes it still lacks. *)
Lemma legacy_config_write_run cnt b s :
  wr_ok (wr s) ->
  let p := if n (wr s) =? 0 then lookup_param (byte_at (req b) PAYLOAD_IDX)
           else param (wr s) in
  let left := Z.to_nat (len (info p) - n (wr s)) in
  let m := Nat.min (Z.to_nat cnt) left in
  let r := legacy_config_write cnt b s in
  fst r = {| req := req b;
             resp := served m PAYLOAD_IDX PAYLOAD_IDX p 0 0 (req b) (resp b) |} /\
  rd (snd r) = rd s /\ param (wr (snd r)) = p /\
  ((Z.to_nat cnt < left)%nat ->
     n (wr (snd r)) = n (wr s) + Z.of_nat (Z.to_nat cnt) /\
     trace (snd r) = trace s) /\
  ((left <= Z.to_nat cnt)%nat ->
     n (wr (snd r)) = 0 /\ payload (wr (snd r)) = 0 /\
     exists v, trace (snd r) = trace (perform_config_write p v s)).
Proof.
  intros Hok p left m r. subst r.
  unfold legacy_config_write, config_write_gather.
  set (s0 := if n (wr s) =? 0 then _ else s).
  assert (H0 : rd s0 = rd s /\ trace s0 = trace s /\ n (wr s0) = n (wr s) /\
               param (wr s0) = p /\ req b = req b /\
               0 <= n (wr s0) <= len (info (param (wr s0)))).
  { subst s0 p. destruct (Z.eqb_spec (n (wr s)) 0) as [Hz|Hnz];
      cbn [rd wr n param payload set_wr trace].
    - pose proof (len_info_bound
        (lookup_param (byte_at (req b) PAYLOAD_IDX))). repeat split; lia.
    - destruct Hok as [[Hz _]|Hb]; [contradiction|]. repeat split; lia. }
  destruct H0 as (Hrd0 & Htr0 & Hn0 & Hp0 & _ & Hb0).
  pose proof (config_write_loop_run (Z.to_nat cnt) PAYLOAD_IDX PAYLOAD_IDX
                b s0 0 Hb0) as Hrun.
  cbv zeta in Hrun. rewrite Hp0, Hn0 in Hrun. fold left m in Hrun.
  destruct (config_write_loop _ _ _ b s0) as [b1 s1].
  cbn [fst snd] in Hrun. destruct Hrun as (Hreq & Hresp & Hrd & Htr & Hp & Hn).
  pose proof (len_info_bound p) as Hlb.
  assert (Hnb : 0 <= n (wr s) <= len (info p)) by (rewrite <- Hn0, <- Hp0; exact Hb0).
  cbn [fst snd]. split.
  { destruct b1 as [rq1 rs1]. cbn [req resp] in *. now subst. }
  unfold config_write_flush. rewrite Hp.
  destruct (Z.geb_spec (n (wr s1)) (len (info p))) as [Hge|Hlt].
  - cbn [rd wr set_wr n param payload trace].
    rewrite perform_config_write_rd.
    split; [congruence|]. split; [reflexivity|]. split; [lia|].
    intros _. split; [reflexivity|]. split; [reflexivity|].
    exists (payload (wr s1)). apply perform_config_write_trace. congruence.
  - split; [congruence|]. split; [exact Hp|]. split.
    + intros Hfew. split; [lia | congruence].
    + intros Hmany. lia.
Qed.

(** A config write answers [m] tuples, the number in the frame or the
    number of bytes the parameter still lacks, whichever is less: each
    with the tuple's address relative to the start of the parameter and a
    zero data byte.  The tuples after that are neither gathered nor
    answered. *)
Theorem config_write_acknowledges (cnt : Z) (b : pkt_buf) (s : state) :
  wr_ok (wr s) ->
  let p := if n (wr s) =? 0 then lookup_param (byte_at (req b) PAYLOAD_IDX)
           else param (wr s) in
  let m := Nat.min (Z.to_nat cnt) (Z.to_nat (len (info p) - n (wr s))) in
  let r := legacy_config_write cnt b s in
  (forall i, (i < m)%nat ->
     (PAYLOAD_IDX + 2 * i + 1 < length (resp b))%nat ->
     resp (fst r) !! (PAYLOAD_IDX + 2 * i)%nat
       = Some (u8 (byte_at (req b) (PAYLOAD_IDX + 2 * i) - start (info p))) /\
     resp (fst r) !! (PAYLOAD_IDX + 2 * i + 1)%nat = Some 0) /\
  (forall j, (j < PAYLOAD_IDX \/ PAYLOAD_IDX + 2 * m <= j)%nat ->
     resp (fst r) !! j = resp b !! j).
Proof.
  intros Hok p m r.
  destruct (legacy_config_write_run cnt b s Hok) as (Hfst & _).
  fold p m r in Hfst. rewrite Hfst. cbn [resp]. split.
  - intros i Hi Hlen. split.
    + now apply served_lookup_addr.
    + rewrite served_lookup_data by assumption. now rewrite byte_of_0.
  - intros j Hj. now apply served_lookup_outside.
Qed.

(** How far a config write gets.  With fewer tuples than the parameter
    still lacks, [n] advances by the count and no driver is called.
    Otherwise [perform_config_write] runs once for the parameter and the
    engine is back at [n = 0] with an empty [payload].  The read engine
    is not touched. *)
Theorem config_write_progress (cnt : Z) (b : pkt_buf) (s : state) :
  wr_ok (wr s) -> 0 <= cnt ->
  let p := if n (wr s) =? 0 then lookup_param (byte_at (req b) PAYLOAD_IDX)
           else param (wr s) in
  let left := len (info p) - n (wr s) in
  let s' := snd (legacy_config_write cnt b s) in
  rd s' = rd s /\ param (wr s') = p /\
  (cnt < left -> n (wr s') = n (wr s) + cnt /\ trace s' = trace s) /\
  (left <= cnt ->
     n (wr s') = 0 /\ payload (wr s') = 0 /\
     exists v, trace s' = trace (perform_config_write p v s)).
Proof.
  intros Hok Hcnt p left s'.
  destruct (legacy_config_write_run cnt b s Hok)
    as (_ & Hrd & Hp & Hfew & Hmany).
  fold p in Hp, Hfew, Hmany. fold s' in Hrd, Hp, Hfew, Hmany.
  assert (Hl : 0 <= left).
  { subst left p. destruct Hok as [[Hz _]|Hb].
    - rewrite Hz. cbn [Z.eqb].
      pose proof (len_info_bound
        (lookup_param (byte_at (req b) PAYLOAD_IDX))). lia.
    - destruct (Z.eqb_spec (n (wr s)) 0); lia. }
  split; [exact Hrd|]. split; [exact Hp|]. split.
  - intros H. destruct Hfew as [Hn Ht]; [lia|]. split; [lia | exact Ht].
  - intros H. apply Hmany. lia.
Qed.

Lemma reachable_ok s : reachable s -> rd_ok (rd s) /\ wr_ok (wr s).
Proof.
  induction 1 as [|b s Hreach IH].
  - split; left; [reflexivity | split; reflexivity].
  - now apply pkt_legacy_ok.
Qed.

Lemma len_info_zero p : len (info p) = 0 -> p = CONFIG_UNKNOWN.
Proof. destruct p; cbn; intros H; first [reflexivity | discriminate]. Qed.

(** Writing a timestamp resets the counter, whatever the data.  From an
    idle write engine, a first frame of [c1] tuples (1 to 7) calls no
    driver; a second frame with at least the [8 - c1] tuples still
    lacking calls [time_tamer_reset] for the module, once, and leaves the
    engine with [n = 0] and an empty [payload].  No data byte of either
    frame takes part in what the driver is asked. *)
Theorem timestamp_write_resets (m : bladerf_module) (c1 c2 : Z)
    (b1 b2 : pkt_buf) (s : state) :
  n (wr s) = 0 -> payload (wr s) = 0 ->
  lookup_param (byte_at (req b1) PAYLOAD_IDX) = timestamp_param m ->
  1 <= c1 <= 7 -> 8 - c1 <= c2 ->
  let s1 := snd (legacy_config_write c1 b1 s) in
  let s2 := snd (legacy_config_write c2 b2 s1) in
  trace s1 = trace s /\ n (wr s1) = c1 /\
  trace s2 = time_tamer_reset m :: trace s /\
  wr s2 = {| param := timestamp_param m; n := 0; payload := 0 |}.
Proof.
  intros Hn Hp Hl Hc1 Hc2 s1 s2.
  assert (H8 : len (info (timestamp_param m)) = 8) by (destruct m; reflexivity).
  assert (Hok : wr_ok (wr s)) by (left; split; assumption).
  destruct (legacy_config_write_run c1 b1 s Hok) as (_ & _ & Hp1 & Hfew & _).
  rewrite Hn in Hp1, Hfew. cbn [Z.eqb] in Hp1, Hfew.
  rewrite Hl, H8 in *. fold s1 in Hp1, Hfew.
  destruct Hfew as [Hn1 Ht1]; [lia|].
  assert (Hn1' : n (wr s1) = c1) by lia.
  assert (Hok1 : wr_ok (wr s1)).
  { right. rewrite Hp1, H8. lia. }
  destruct (legacy_config_write_run c2 b2 s1 Hok1) as (_ & _ & Hp2 & _ & Hmany).
  assert (Hne : (n (wr s1) =? 0) = false) by (apply Z.eqb_neq; lia).
  rewrite Hne, Hp1, H8 in *. fold s2 in Hp2, Hmany.
  destruct Hmany as (Hn2 & Hpay2 & v & Ht2); [lia|].
  split; [exact Ht1|]. split; [exact Hn1'|]. split.
  - rewrite Ht2, <- Ht1. destruct m; reflexivity.
  - destruct (wr s2) as [p2 n2 v2]. cbn in *. congruence.
Qed.

(** The FPGA version cannot be written.  Whatever the count and the
    data, a config write that is working on [CONFIG_FPGA_VERSION] (or on
    [CONFIG_UNKNOWN]) calls no driver. *)
Theorem config_write_version_ignored (cnt : Z) (b : pkt_buf) (s : state) :
  wr_ok (wr s) ->
  let p := if n (wr s) =? 0 then lookup_param (byte_at (req b) PAYLOAD_IDX)
           else param (wr s) in
  p = CONFIG_FPGA_VERSION \/ p = CONFIG_UNKNOWN ->
  trace (snd (legacy_config_write cnt b s)) = trace s.
Proof.
  intros Hok p Hp.
  destruct (legacy_config_write_run cnt b s Hok) as (_ & _ & _ & Hfew & Hmany).
  fold p in Hfew, Hmany.
  destruct (Nat.lt_ge_cases (Z.to_nat cnt)
              (Z.to_nat (len (info p) - n (wr s)))) as [H | H].
  - now apply Hfew.
  - destruct (Hmany H) as (_ & _ & v & Hv). rewrite Hv.
    destruct Hp as [-> | ->]; reflexivity.
Qed.

(** A config frame with a count of zero does nothing that can be seen.
    In any state the firmware can reach, the response comes back as the
    caller set it, no driver is called, the read engine is as before, and
    the write engine has gathered nothing new. *)
Theorem pkt_legacy_count_zero (b : pkt_buf) (s : state) :
  reachable s ->
  let cfg := byte_at (req b) PKT_CFG_IDX in
  dev_id cfg = UART_PKT_DEV_CONFIG -> count cfg = 0 ->
  let r := pkt_legacy b s in
  fst r = b /\ trace (snd r) = trace s /\ rd (snd r) = rd s /\
  n (wr (snd r)) = n (wr s) /\ payload (wr (snd r)) = payload (wr s).
Proof.
  intros Hreach cfg Hdev Hcnt r.
  destruct (reachable_ok s Hreach) as [_ Hw].
  subst r. unfold pkt_legacy. fold cfg. rewrite Hdev, Hcnt.
  destruct (is_read cfg); [cbn; auto|].
  destruct (is_write cfg); [|cbn; auto].
  rewrite legacy_pkt_write_config.
  set (s0 := if n (wr s) =? 0
             then set_wr s {| param := lookup_param (byte_at (req b) PAYLOAD_IDX);
                              n := n (wr s); payload := payload (wr s) |}
             else s).
  change (legacy_config_write 0 b s) with (b, config_write_flush s0).
  cbn [fst snd]. split; [reflexivity|].
  unfold config_write_flush. subst s0.
  destruct (Z.eqb_spec (n (wr s)) 0) as [Hz|Hnz].
  - destruct Hw as [[_ Hpz]|Hb]; [|lia].
    cbn [wr set_wr n param payload rd trace]. rewrite Hz.
    set (p := lookup_param _).
    destruct (Z.geb_spec 0 (len (info p))) as [Hge|Hlt].
    + pose proof (len_info_bound p) as Hlb.
      assert (Hu : p = CONFIG_UNKNOWN) by (apply len_info_zero; lia).
      rewrite Hu. cbn [perform_config_write wr rd set_wr trace n payload].
      auto.
    + cbn [wr rd set_wr trace n payload]. auto.
  - destruct Hw as [[Hz _]|Hb]; [contradiction|].
    destruct (Z.geb_spec (n (wr s)) (len (info (param (wr s))))); [lia|].
    auto.
Qed.

(** One frame, at most one driver call.  In any state the firmware can
    reach, [pkt_legacy] adds nothing or a single call to the record of
    driver calls, and removes none. *)
Theorem pkt_legacy_one_call (b : pkt_buf) (s : state) :
  reachable s ->
  exists calls, trace (snd (pkt_legacy b s)) = calls ++ trace s /\
                (length calls <= 1)%nat.
Proof.
  intros Hreach. destruct (reachable_ok s Hreach) as [Hr Hw].
  assert (Hnone : exists calls, trace s = calls ++ trace s /\
                                (length calls <= 1)%nat).
  { exists []. split; [reflexivity | simpl; lia]. }
  assert (Hone : forall c, exists calls,
             c :: trace s = calls ++ trace s /\ (length calls <= 1)%nat).
  { intros c. exists [c]. split; [reflexivity | simpl; lia]. }
  unfold pkt_legacy. set (cfg := byte_at (req b) PKT_CFG_IDX).
  destruct (is_read cfg).
  - unfold legacy_pkt_read, do_read.
    destruct (_ =? UART_PKT_DEV_LMS); [apply Hone|].
    destruct (_ =? UART_PKT_DEV_SI5338); [apply Hone|].
    destruct (_ =? UART_PKT_DEV_CONFIG); [|exact Hnone].
    destruct (Z.le_gt_cases (count cfg) 0) as [Hle|Hgt].
    + unfold legacy_config_read.
      replace (Z.to_nat (count cfg)) with 0%nat by lia. exact Hnone.
    + destruct Hr as [Hidle|Hbusy].
      * rewrite legacy_config_read_idle by (rewrite ?Hidle; simpl; lia).
        cbv zeta. case_leb; cbn [snd set_rd trace];
          apply perform_config_read_calls.
      * unfold legacy_config_read.
        rewrite config_read_loop_resume by exact Hbusy. cbv zeta.
        case_leb; exact Hnone.
  - destruct (is_write cfg); [|exact Hnone].
    unfold legacy_pkt_write, emit.
    destruct (_ =? UART_PKT_DEV_LMS); [apply Hone|].
    destruct (_ =? UART_PKT_DEV_SI5338); [apply Hone|].
    destruct (_ =? UART_PKT_DEV_CONFIG); [|exact Hnone].
    destruct (legacy_config_write_run (count cfg) b s Hw)
      as (_ & _ & _ & Hfew & Hmany).
    match type of Hfew with
    | (?a < ?l)%nat -> _ => destruct (Nat.lt_ge_cases a l) as [H | H]
    end.
    + destruct (Hfew H) as [_ ->]. exact Hnone.
    + destruct (Hmany H) as (_ & _ & v & ->).
      apply perform_config_write_calls.
Qed.

(** ** The read engine, frame by frame *)

(** A parameter that fits in the frame is read in one call: from an idle
    engine, with at least as many tuples as the parameter has bytes, the
    driver is read once, tuple [i] is answered with the tuple's address
    relative to the start of the parameter (which is [i] when the host
    counts the addresses up from the start) and with byte [i] of the
    value, and the engine is idle again. *)
Theorem config_read_whole_parameter (cnt : Z) (b : pkt_buf) (s : state) :
  let p := lookup_param (byte_at (req b) PAYLOAD_IDX) in
  let vs := perform_config_read p s in
  n (rd s) = 0 -> 1 <= len (info p) <= cnt ->
  (PAYLOAD_IDX + 2 * Z.to_nat (len (info p)) <= length (resp b))%nat ->
  let r := legacy_config_read cnt b s in
  (forall i, (i < Z.to_nat (len (info p)))%nat ->
     resp (fst r) !! (PAYLOAD_IDX + 2 * i)%nat
       = Some (u8 (byte_at (req b) (PAYLOAD_IDX + 2 * i) - start (info p))) /\
     (byte_at (req b) (PAYLOAD_IDX + 2 * i) = start (info p) + Z.of_nat i ->
      resp (fst r) !! (PAYLOAD_IDX + 2 * i)%nat = Some (Z.of_nat i)) /\
     resp (fst r) !! (PAYLOAD_IDX + 2 * i + 1)%nat
       = Some (byte_of (fst vs) (Z.of_nat i))) /\
  snd r = set_rd (snd vs) rd_init.
Proof.
  intros p vs Hn Hlen Hresp r. subst r.
  rewrite legacy_config_read_idle by lia. cbv zeta. fold p vs.
  replace (Z.to_nat (Z.max 1 (len (info p)))) with (Z.to_nat (len (info p)))
    by lia.
  case_leb; [|lia]. cbn [fst snd resp]. split; [|reflexivity].
  intros i Hi.
  assert (Ha : served (Z.to_nat (len (info p))) PAYLOAD_IDX PAYLOAD_IDX p
                 (fst vs) 0 (req b) (resp b) !! (PAYLOAD_IDX + 2 * i)%nat
               = Some (u8 (byte_at (req b) (PAYLOAD_IDX + 2 * i)
                           - start (info p))))
    by (apply served_lookup_addr; lia).
  split; [exact Ha|]. split.
  - intros Hseq. rewrite Ha, Hseq. f_equal. unfold u8.
    pose proof (len_info_bound p).
    replace (start (info p) + Z.of_nat i - start (info p)) with (Z.of_nat i)
      by lia.
    apply Z.mod_small. lia.
  - rewrite served_lookup_data by lia. reflexivity.
Qed.

(** Reading again gives the same answer: when a complete read is
    followed by the same request, and the driver returns the value it
    returned before, the second response equals the first and the engine
    is idle once more. *)
Theorem config_read_repeatable (cnt : Z) (b : pkt_buf) (s : state) :
  let p := lookup_param (byte_at (req b) PAYLOAD_IDX) in
  n (rd s) = 0 -> Z.max 1 (len (info p)) <= cnt ->
  let r1 := legacy_config_read cnt b s in
  fst (perform_config_read p (snd r1)) = fst (perform_config_read p s) ->
  let r2 := legacy_config_read cnt b (snd r1) in
  fst r2 = fst r1 /\ rd (snd r2) = rd_init.
Proof.
  intros p Hn Hlen r1 Hsame r2.
  assert (Hr1 : r1 =
    ({| req := req b;
        resp := served (Z.to_nat (Z.max 1 (len (info p)))) PAYLOAD_IDX
                  PAYLOAD_IDX p (fst (perform_config_read p s)) 0
                  (req b) (resp b) |},
     set_rd (snd (perform_config_read p s)) rd_init)).
  { subst r1. rewrite legacy_config_read_idle by lia. cbv zeta. fold p.
    case_leb; [reflexivity | lia]. }
  subst r2. rewrite Hr1 in *. cbn [snd fst] in *.
  rewrite legacy_config_read_idle by (cbn [rd set_rd n rd_init]; lia).
  cbv zeta. fold p. case_leb; [|lia].
  cbn [fst snd rd set_rd]. rewrite Hsame. split; reflexivity.
Qed.

(** A read that is resumed serves the value cached when it began.  In
    the middle of a parameter no driver is called and the parameter is
    not resolved again: the data bytes answered are the next bytes of the
    cached value, and the state after the frame is the same whatever
    the request holds. *)
Theorem config_read_resumed (cnt : Z) (b : pkt_buf) (s : state) :
  1 <= n (rd s) < len (info (param (rd s))) -> 0 <= cnt ->
  let x := rd s in
  let left := len (info (param x)) - n x in
  let r := legacy_config_read cnt b s in
  trace (snd r) = trace s /\ wr (snd r) = wr s /\
  rd (snd r) = (if left <=? cnt then rd_init
                else {| param := param x; n := n x + cnt;
                        payload := payload x |}) /\
  (forall i, Z.of_nat i < Z.min cnt left ->
     (PAYLOAD_IDX + 2 * i + 1 < length (resp b))%nat ->
     resp (fst r) !! (PAYLOAD_IDX + 2 * i + 1)%nat
       = Some (byte_of (payload x) (n x + Z.of_nat i))) /\
  (forall b', snd (legacy_config_read cnt b' s) = snd r).
Proof.
  intros Hbusy Hcnt x left r. subst r x left. unfold legacy_config_read.
  rewrite config_read_loop_resume by exact Hbusy. cbv zeta.
  destruct (Z.leb_spec (len (info (param (rd s))) - n (rd s)) cnt) as [Hle|Hgt];
    case_leb; try lia; cbn [fst snd resp rd wr trace set_rd].
  - repeat split.
    + intros i Hi Hlen. apply served_lookup_data; lia.
    + intros b'. rewrite config_read_loop_resume by exact Hbusy. cbv zeta.
      case_leb; [reflexivity | lia].
  - repeat split.
    + do 2 f_equal. lia.
    + intros i Hi Hlen. apply served_lookup_data; lia.
    + intros b'. rewrite config_read_loop_resume by exact Hbusy. cbv zeta.
      case_leb; [lia | reflexivity].
Qed.

(** ** The value a short write hands to the driver *)

(** The low [m] bytes of a word, from byte [k0] on, make up that part of
    the word. *)
Lemma le_value_bytes m : forall (f : nat -> Z) v k0,
  0 <= k0 ->
  (forall i, (i < m)%nat -> byte_of v (k0 + Z.of_nat i) = f i) ->
  Z.shiftr v (k0 * 8) mod 2 ^ (8 * Z.of_nat m) = le_value (map f (seq 0 m)).
Proof.
  induction m as [|m IH]; intros f v k0 Hk Hf.
  - cbn [seq map le_value]. change (2 ^ (8 * Z.of_nat 0)) with 1.
    apply Z.mod_1_r.
  - cbn [seq map le_value]. rewrite <- seq_shift, map_map.
    rewrite <- (IH (fun i => f (S i)) v (k0 + 1)); [|lia|].
    + rewrite <- (Hf 0%nat) by lia.
      replace (8 * Z.of_nat (S m)) with (8 + 8 * Z.of_nat m) by lia.
      rewrite Z.pow_add_r by lia.
      rewrite Z.rem_mul_r by lia.
      unfold byte_of, u8. rewrite Z.add_0_r. do 3 f_equal.
      rewrite <- Z.shiftr_div_pow2 by lia.
      rewrite Z.shiftr_shiftr by lia. f_equal. lia.
    + intros i Hi. rewrite <- Hf by lia. f_equal. lia.
Qed.

Lemma le_value_range l :
  Forall (fun d => 0 <= d < 256) l ->
  0 <= le_value l < 2 ^ (8 * Z.of_nat (length l)).
Proof.
  induction 1 as [|d l Hd _ IH]; cbn [le_value length].
  - change (2 ^ (8 * Z.of_nat 0)) with 1. lia.
  - replace (8 * Z.of_nat (S (length l))) with (8 + 8 * Z.of_nat (length l))
      by lia.
    rewrite Z.pow_add_r by lia. change (2 ^ 8) with 256. nia.
Qed.

(** A parameter of up to four bytes written in one frame reaches its
    driver as sent.  From an idle write engine, with at least as many
    tuples as the parameter has bytes, [perform_config_write] runs once
    on a word whose low bytes are the data bytes of the frame, least
    significant first; for every parameter but the two expansion port
    ones, whose drivers are handed the word uncast, the driver call is
    the one [perform_config_write] makes on that little-endian value
    itself. *)
Theorem config_write_short_value (cnt : Z) (b : pkt_buf) (s : state) :
  let p := lookup_param (byte_at (req b) PAYLOAD_IDX) in
  let L := len (info p) in
  let V := le_value (data_bytes b (Z.to_nat L)) in
  n (wr s) = 0 -> payload (wr s) = 0 -> 1 <= L <= 4 -> L <= cnt ->
  let s' := snd (legacy_config_write cnt b s) in
  0 <= V < 2 ^ (8 * L) /\
  (exists v, v mod 2 ^ (8 * L) = V /\
             trace s' = trace (perform_config_write p v s)) /\
  (p <> CONFIG_EXPANSION -> p <> CONFIG_EXPANSION_DIR ->
   trace s' = trace (perform_config_write p V s)).
Proof.
  intros p L V Hn Hp HL Hcnt s'.
  destruct (config_write_short_assembles cnt b s Hn Hp HL Hcnt)
    as (Hpar & Hn1 & Hbytes & _).
  fold p L in Hpar, Hn1, Hbytes.
  set (s1 := snd (config_write_gather cnt b s)) in *.
  assert (Htr1 : trace s1 = trace s).
  { unfold s1, config_write_gather. rewrite Hn. cbn [Z.eqb].
    match goal with
    | |- trace (snd (config_write_loop ?t ?q ?r ?b0 ?s0)) = _ =>
        destruct (config_write_loop_inv t q r b0 s0) as (_ & Htr & _);
        [|exact Htr]
    end.
    cbn [wr set_wr n param].
    pose proof (len_info_bound (lookup_param (byte_at (req b) PAYLOAD_IDX))).
    lia. }
  assert (Hs' : trace s' = trace (perform_config_write p (payload (wr s1)) s)).
  { subst s'. unfold legacy_config_write. fold s1.
    destruct (config_write_gather cnt b s) as [b1 s1'] eqn:Hg.
    subst s1. cbn [snd] in *. unfold config_write_flush.
    rewrite Hpar, Hn1. fold L.
    destruct (Z.geb_spec L L); [|lia].
    cbn [set_wr trace]. now apply perform_config_write_trace. }
  assert (HV : payload (wr s1) mod 2 ^ (8 * L) = V).
  { subst V. unfold data_bytes.
    rewrite <- (le_value_bytes (Z.to_nat L) _ (payload (wr s1)) 0).
    - rewrite Z.shiftr_0_r. do 2 f_equal. lia.
    - lia.
    - intros i Hi. rewrite Z.add_0_l. apply Hbytes. lia. }
  assert (HVr : 0 <= V < 2 ^ (8 * L)).
  { rewrite <- HV. apply Z.mod_pos_bound. apply Z.pow_pos_nonneg; lia. }
  split; [exact HVr|]. split; [exists (payload (wr s1)); split; assumption|].
  intros He Hd. rewrite Hs'.
  assert (H32 : L = 4 -> u32 (payload (wr s1)) = u32 V).
  { intros HL4. unfold u32. rewrite <- HV, HL4.
    change (8 * 4) with 32. now rewrite Z.mod_mod by lia. }
  assert (H16 : L = 2 -> u16 (payload (wr s1)) = u16 V).
  { intros HL2. unfold u16. rewrite <- HV, HL2.
    change (8 * 2) with 16. now rewrite Z.mod_mod by lia. }
  subst L. clearbody V s1 s'. clear Hbytes Hs' HV HVr Hpar Hn1 HL Hcnt.
  destruct p; cbn [perform_config_write emit trace] in *;
    try reflexivity; try contradiction;
    first [ rewrite (H32 eq_refl) | rewrite (H16 eq_refl) ]; reflexivity.
Qed.

End Handler.

(** C1 at addresses 17 (inside the RX timestamp) and 33 (in no range). *)
Lemma lookup_param_first_match_witness :
  lookup_param 17 = CONFIG_RX_TIMESTAMP /\ lookup_param 33 = CONFIG_UNKNOWN.
Proof.
  split.
  - apply (proj1 (lookup_param_first_match 17 ltac:(lia))
             6%nat {| start := 16; len := 8 |} eq_refl).
    + unfold contains; simpl; lia.
    + intros j e' Hj Hl. unfold contains.
      do 6 (destruct j as [|j];
            [simpl in Hl; inversion Hl; subst; simpl; lia|]).
      lia.
  - apply (proj1 (proj2 (lookup_param_first_match 33 ltac:(lia)))).
    intros k e Hk. unfold contains.
    do 13 (destruct k as [|k];
           [simpl in Hk; inversion Hk; subst; simpl; lia|]).
    discriminate.
Defined.

(** C3 as first stated fails between indices 7 and 8. *)
Lemma config_params_not_contiguous :
  ~ (forall i e1 e2,
       descriptors !! i = Some e1 -> descriptors !! S i = Some e2 ->
       start e2 = start e1 + len e1).
Proof.
  intros H.
  specialize (H 7%nat {| start := 24; len := 8 |} {| start := 34; len := 2 |}
                eq_refl eq_refl).
  discriminate H.
Qed.

(** C3 (as amended) at the pair around the gap and at the pair before. *)
Lemma config_params_layout_witness :
  start {| start := 34; len := 2 |} = 24 + 8 + 2 /\
  start {| start := 24; len := 8 |} = 16 + 8 + 0.
Proof.
  split.
  - exact (proj2 config_params_layout 7%nat
             {| start := 24; len := 8 |} {| start := 34; len := 2 |}
             eq_refl eq_refl).
  - exact (proj2 config_params_layout 6%nat
             {| start := 16; len := 8 |} {| start := 24; len := 8 |}
             eq_refl eq_refl).
Defined.

(** C8 on a frame without direction bits and on a read of the reserved
    device 2. *)
Lemma pkt_legacy_ignored_witness :
  pkt_legacy PKT_CFG_IDX_spec dev_sample sll_nios2 (frame 0x07 [5; 9]) init
    = (frame 0x07 [5; 9], init) /\
  pkt_legacy PKT_CFG_IDX_spec dev_sample sll_nios2 (frame 0xA1 [5; 9]) init
    = (frame 0xA1 [5; 9], init).
Proof.
  split; apply pkt_legacy_ignored.
  - left. split; reflexivity.
  - right. left. reflexivity.
Defined.

(** C10 on a config frame with both direction bits set. *)
Lemma pkt_legacy_read_priority_witness :
  pkt_legacy PKT_CFG_IDX_spec dev_sample sll_nios2 (frame 0xC1 [0; 0xAB]) init
    = legacy_pkt_read dev_sample 0 1 (frame 0xC1 [0; 0xAB]) init /\
  reads_only init
    (snd (pkt_legacy PKT_CFG_IDX_spec dev_sample sll_nios2
            (frame 0xC1 [0; 0xAB]) init)).
Proof.
  apply (pkt_legacy_read_priority PKT_CFG_IDX_spec dev_sample sll_nios2
           (frame 0xC1 [0; 0xAB]) init); reflexivity.
Defined.

(** C7 on a read of LMS register 5 with the count field at 7, and on a
    write of 0x3C to Si5338 register 5. *)
Lemma pkt_legacy_direct_access_witness :
  pkt_legacy PKT_CFG_IDX_spec dev_sample sll_nios2 (frame 0x97 [5; 0]) init
    = ({| req := req (frame 0x97 [5; 0]);
          resp := [0; 0; 5; 6; 0; 0; 0; 0; 0; 0; 0; 0; 0; 0; 0; 0] |},
       {| rd := rd_init; wr := wr_init; trace := [lms6_read 5] |}) /\
  pkt_legacy PKT_CFG_IDX_spec dev_sample sll_nios2 (frame 0x71 [5; 0x3C]) init
    = ({| req := req (frame 0x71 [5; 0x3C]);
          resp := [0; 0; 5; 0; 0; 0; 0; 0; 0; 0; 0; 0; 0; 0; 0; 0] |},
       {| rd := rd_init; wr := wr_init; trace := [si5338_write 5 0x3C] |}).
Proof.
  split.
  - apply (proj1 (pkt_legacy_direct_access PKT_CFG_IDX_spec dev_sample
                    sll_nios2 (frame 0x97 [5; 0]) init
                    (or_introl eq_refl)) eq_refl).
  - apply (proj2 (pkt_legacy_direct_access PKT_CFG_IDX_spec dev_sample
                    sll_nios2 (frame 0x71 [5; 0x3C]) init
                    (or_intror eq_refl)) eq_refl eq_refl).
Defined.

(** C6 on a 7-tuple read of the two-byte RX gain correction: two tuples
    are answered, the rest of the response keeps the caller's 0xEE. *)
Lemma config_read_stops_at_completion_witness :
  let b := {| req := req (frame 0x87 [4; 0; 5; 0; 6; 0; 7; 0]);
              resp := replicate 16 0xEE |} in
  rd (snd (legacy_config_read dev_sample 7 b init)) = rd_init /\
  (forall j, (6 <= j)%nat ->
     resp (fst (legacy_config_read dev_sample 7 b init)) !! j = resp b !! j).
Proof.
  intros b.
  apply (config_read_stops_at_completion dev_sample 7 b init).
  - left. reflexivity.
  - vm_compute. discriminate.
Defined.

(** C9 at address 33, which lies in the gap of the map. *)
Lemma config_unknown_address_witness :
  legacy_pkt_read dev_sample UART_PKT_DEV_CONFIG 1 (frame 0x81 [33; 0]) init
    = ({| req := req (frame 0x81 [33; 0]);
          resp := [0; 0; 34; 0xFF; 0; 0; 0; 0; 0; 0; 0; 0; 0; 0; 0; 0] |},
       init) /\
  legacy_pkt_write sll_nios2 UART_PKT_DEV_CONFIG 1 (frame 0x41 [33; 7]) init
    = (frame 0x41 [33; 7],
       set_wr init {| param := CONFIG_UNKNOWN; n := 0; payload := 0 |}).
Proof.
  assert (Hout : forall cfg d k e, config_params !! k = Some e ->
            ~ contains e (byte_at (req (frame cfg [33; d])) PAYLOAD_IDX)).
  { intros cfg d k e Hk. unfold contains.
    change (byte_at (req (frame cfg [33; d])) PAYLOAD_IDX) with 33.
    do 13 (destruct k as [|k];
           [simpl in Hk; inversion Hk; subst; simpl; lia|]).
    discriminate. }
  split.
  - apply (config_unknown_address dev_sample sll_nios2 1
             (frame 0x81 [33; 0]) init (Hout 0x81 0));
      [reflexivity | lia].
  - apply (proj2 (proj2 (proj2 (proj2
             (config_unknown_address dev_sample sll_nios2 1
                (frame 0x41 [33; 7]) init (Hout 0x41 7))))) eq_refl 0).
Defined.

(** C5 on a read of the RX timestamp in frames of 5 and 3 tuples. *)
Lemma timestamp_read_two_frames_witness :
  let r1 := legacy_config_read dev_sample 5
              (frame 0x85 [16; 0; 17; 0; 18; 0; 19; 0; 20; 0]) init in
  let r2 := legacy_config_read dev_sample 3
              (frame 0x83 [21; 0; 22; 0; 23; 0]) (snd r1) in
  rd (snd r1) = {| param := CONFIG_RX_TIMESTAMP; n := 5;
                   payload := 0x0807060504030201 |} /\
  rd (snd r2) = rd_init /\
  trace (snd r2) = [time_tamer_read BLADERF_MODULE_RX].
Proof.
  intros r1 r2.
  destruct (timestamp_read_two_frames dev_sample 5 3
              (frame 0x85 [16; 0; 17; 0; 18; 0; 19; 0; 20; 0])
              (frame 0x83 [21; 0; 22; 0; 23; 0]) init)
    as (m & v & Hp & Hv & _ & Hrd1 & _ & _ & Hrd2 & Htr2);
    try reflexivity; try lia; try (simpl; lia).
  assert (Hm : m = BLADERF_MODULE_RX) by (destruct m; [reflexivity|discriminate]).
  subst m. subst v. fold r1 in Hrd1. fold r1 r2 in Hrd2, Htr2.
  split; [exact Hrd1|]. split; [exact Hrd2 | exact Htr2].
Defined.

(** C4 as first stated fails: after one tuple of a read of the 4-byte
    control register and one tuple of a write to it, both engines are in
    the middle of a transfer.  This is so with the configuration byte at
    index 0 and at index 1. *)
Lemma read_and_write_both_in_flight :
  (exists s, reachable 0 dev_sample sll_nios2 s /\
             0 < n (rd s) /\ 0 < n (wr s) /\
             1 < len (info (param (rd s))) /\
             1 < len (info (param (wr s)))) /\
  (exists s, reachable 1 dev_sample sll_nios2 s /\
             0 < n (rd s) /\ 0 < n (wr s) /\
             1 < len (info (param (rd s))) /\
             1 < len (info (param (wr s)))).
Proof.
  split.
  - exists (snd (serve 0 dev_sample sll_nios2
                   [ctrl_read_frame; ctrl_write_frame] init)).
    split; [apply serve_reachable, reachable_init|].
    vm_compute. repeat split.
  - exists (snd (serve 1 dev_sample sll_nios2
                   [ctrl_read_frame; ctrl_write_frame] init)).
    split; [apply serve_reachable, reachable_init|].
    vm_compute. repeat split.
Qed.

(** C4 (as amended) at that state. *)
Lemma transfer_states_separate_witness :
  let s := snd (serve PKT_CFG_IDX_spec dev_sample sll_nios2
                  [ctrl_read_frame; ctrl_write_frame] init) in
  rd_ok (rd s) /\ wr_ok (wr s).
Proof.
  intros s.
  destruct (transfer_states_separate PKT_CFG_IDX_spec dev_sample sll_nios2 s)
    as (Hr & Hw & _).
  - apply serve_reachable, reachable_init.
  - split; [exact Hr | exact Hw].
Defined.

(** The write of C2 on the NIOS II, where [sll] shifts by the distance
    modulo 32: bytes 4 to 7 land on bytes 0 to 3, and the sign of the
    32-bit result fills the upper half. *)
Example config_write_wide_nios2 :
  let s1 := snd (legacy_config_write sll_nios2 7 ts_write_frame1 init) in
  let s2 := snd (config_write_gather sll_nios2 1 ts_write_frame2 s1) in
  payload (wr s2) = 0xFFFFFFFF88442211 /\
  trace (config_write_flush s2) = [time_tamer_reset BLADERF_MODULE_RX].
Proof. split; reflexivity. Qed.

(** A 4-byte write whose last data byte has its top bit set: the shift
    by 24 overflows into the sign of the [int], the upper half of
    [payload] fills with ones, and the cast in [perform_config_write]
    drops it again. *)
Example config_write_control_reg_nios2 :
  let b := frame 0x44 [0; 0x11; 1; 0x22; 2; 0x33; 3; 0x84] in
  payload (wr (snd (config_write_gather sll_nios2 4 b init)))
    = 0xFFFFFFFF84332211 /\
  trace (snd (legacy_config_write sll_nios2 4 b init))
    = [control_reg_write 0x84332211].
Proof. split; reflexivity. Qed.

(** * The hardware loop test *)

Section HostProperties.

Import HwLoop.

Variable SIZE_WIDTH : Z.
Variable malloc : Z -> option (list Z).

Lemma length_short_of o : (1 <= length (short_of o) <= 2)%nat.
Proof. unfold short_of. destruct (_ =? _); simpl; lia. Qed.

Lemma length_flat_map_short_of entries :
  (length (flat_map short_of entries) <= 2 * length entries)%nat.
Proof.
  induction entries as [|o entries IH]; cbn [flat_map length]; [lia|].
  rewrite length_app. pose proof (length_short_of o). lia.
Qed.

Lemma usize_small x :
  32 <= SIZE_WIDTH -> 0 <= x < 2 ^ 32 -> usize SIZE_WIDTH x = x.
Proof.
  intros Hw Hx. unfold usize. apply Z.mod_small.
  pose proof (Z.pow_le_mono_r 2 32 SIZE_WIDTH); lia.
Qed.

(** The counting loop stops at the sentinel with the number of
    characters the entries before it need. *)
Lemma opt_len_counts term rest entries : forall len,
  Forall (fun o => name o <> None) entries -> name term = None ->
  32 <= SIZE_WIDTH ->
  0 <= len -> len + 2 * Z.of_nat (length entries) < 2 ^ 32 ->
  opt_len SIZE_WIDTH (entries ++ term :: rest) len
  = Some (len + Z.of_nat (length (flat_map short_of entries))).
Proof.
  induction entries as [|o entries IH]; intros len Hnamed Hterm Hw Hlen Hbound.
  - cbn. rewrite Hterm. f_equal. lia.
  - inversion Hnamed as [|? ? Ho Hrest]; subst.
    cbn [app opt_len flat_map]. destruct (name o) as [nm|]; [|contradiction].
    cbn [length] in Hbound. rewrite length_app.
    assert (Hs : short_of o = u8 (val o) ::
              (if has_arg o =? required_argument then [chr ":"] else []))
      by reflexivity.
    rewrite Hs. clear Hs.
    rewrite (usize_small (len + 1)) by lia.
    destruct (has_arg o =? required_argument).
    + rewrite (usize_small (len + 1 + 1)) by lia.
      rewrite IH by (try assumption; lia). f_equal. cbn [length]. lia.
    + rewrite IH by (try assumption; lia). f_equal. cbn [length]. lia.
Qed.

Lemma store_mid pre x post c :
  store (pre ++ x :: post) (Z.of_nat (length pre)) c = Some (pre ++ c :: post).
Proof.
  unfold store. rewrite length_app. cbn [length].
  destruct (Z.leb_spec 0 (Z.of_nat (length pre))); [|lia].
  destruct (Z.ltb_spec (Z.of_nat (length pre))
              (Z.of_nat (length pre + S (length post)))); [|lia].
  cbn [andb]. rewrite Nat2Z.id. f_equal.
  rewrite insert_app_r_alt by lia. rewrite Nat.sub_diag. reflexivity.
Qed.

(** The filling loop overwrites exactly the characters counted: with
    [pre] written so far, it replaces the next block [mid] by the short
    options and leaves [post] alone. *)
Lemma opt_fill_writes term rest entries : forall pre mid post,
  Forall (fun o => name o <> None) entries -> name term = None ->
  length mid = length (flat_map short_of entries) ->
  Z.of_nat (length pre) + 2 * Z.of_nat (length entries) < INT_MAX ->
  opt_fill (entries ++ term :: rest) (Z.of_nat (length pre))
           (pre ++ mid ++ post)
  = Some (Z.of_nat (length pre + length mid),
          pre ++ flat_map short_of entries ++ post).
Proof.
  induction entries as [|o entries IH];
    intros pre mid post Hnamed Hterm Hmid Hbound.
  - cbn in Hmid. destruct mid; [|discriminate].
    cbn. rewrite Hterm. do 2 f_equal. lia.
  - inversion Hnamed as [|? ? Ho Hrest]; subst.
    cbn [app opt_fill flat_map]. destruct (name o) as [nm|]; [|contradiction].
    cbn [flat_map length] in Hmid, Hbound. rewrite length_app in Hmid.
    assert (Hs : short_of o = u8 (val o) ::
              (if has_arg o =? required_argument then [chr ":"] else []))
      by reflexivity.
    rewrite Hs in *. clear Hs. unfold int_incr.
    destruct (has_arg o =? required_argument).
    + destruct mid as [|m1 [|m2 mid]]; cbn [length] in Hmid; try lia.
      cbn [app]. rewrite store_mid.
      destruct (Z.ltb_spec (Z.of_nat (length pre)) INT_MAX); [|lia].
      replace (Z.of_nat (length pre) + 1)
        with (Z.of_nat (length (pre ++ [u8 (val o)])))
        by (rewrite length_app; cbn [length]; lia).
      replace (pre ++ u8 (val o) :: m2 :: mid ++ post)
        with ((pre ++ [u8 (val o)]) ++ m2 :: mid ++ post)
        by (now rewrite <- app_assoc).
      rewrite store_mid.
      destruct (Z.ltb_spec (Z.of_nat (length (pre ++ [u8 (val o)]))) INT_MAX);
        [|rewrite length_app in *; cbn [length] in *; lia].
      replace (Z.of_nat (length (pre ++ [u8 (val o)])) + 1)
        with (Z.of_nat (length ((pre ++ [u8 (val o)]) ++ [chr ":"])))
        by (rewrite !length_app; cbn [length]; lia).
      replace ((pre ++ [u8 (val o)]) ++ chr ":" :: mid ++ post)
        with (((pre ++ [u8 (val o)]) ++ [chr ":"]) ++ mid ++ post)
        by (now rewrite <- !app_assoc).
      rewrite IH; try assumption.
      * rewrite !length_app. cbn [length]. rewrite <- !app_assoc.
        cbn [app]. do 2 f_equal. lia.
      * cbn [length] in Hmid. lia.
      * rewrite !length_app. cbn [length]. lia.
    + destruct mid as [|m1 mid]; cbn [length] in Hmid; try lia.
      cbn [app]. rewrite store_mid.
      destruct (Z.ltb_spec (Z.of_nat (length pre)) INT_MAX); [|lia].
      replace (Z.of_nat (length pre) + 1)
        with (Z.of_nat (length (pre ++ [u8 (val o)])))
        by (rewrite length_app; cbn [length]; lia).
      replace (pre ++ u8 (val o) :: mid ++ post)
        with ((pre ++ [u8 (val o)]) ++ mid ++ post)
        by (now rewrite <- app_assoc).
      rewrite IH; try assumption.
      * rewrite !length_app. cbn [length]. rewrite <- !app_assoc.
        cbn [app]. do 2 f_equal. lia.
      * lia.
      * rewrite !length_app. cbn [length]. lia.
Qed.

(** [getopt_str] builds the short-option string of a table.  For a table
    whose entries before the first [NULL] name number fewer than 2^30,
    it asks [malloc] for one byte more than the characters it will
    write; it returns [NULL] when [malloc] does, and otherwise returns
    the block holding, for each entry in order, the low byte of [val]
    and a colon after the entries with a required argument, then a zero
    byte.  Every byte of the block is written and none beyond it; what
    the block held and the entries after the sentinel play no part. *)
Theorem getopt_str_builds (entries : list option_) (term : option_)
    (rest : list option_) :
  Forall (fun o => name o <> None) entries -> name term = None ->
  32 <= SIZE_WIDTH ->
  Z.of_nat (length entries) < 2 ^ 30 ->
  (forall k blk, malloc k = Some blk -> length blk = Z.to_nat k) ->
  let shorts := flat_map short_of entries in
  getopt_str SIZE_WIDTH malloc (entries ++ term :: rest)
  = match malloc (Z.of_nat (length shorts) + 1) with
    | None => Some None
    | Some _ => Some (Some (shorts ++ [0]))
    end.
Proof.
  intros Hnamed Hterm Hw Hsmall Hmalloc shorts.
  pose proof (length_flat_map_short_of entries) as Hshort.
  fold shorts in Hshort.
  unfold getopt_str.
  rewrite opt_len_counts by (try assumption; lia). fold shorts.
  rewrite Z.mul_1_r, Z.add_0_l.
  rewrite usize_small by (try assumption; lia).
  destruct (malloc (Z.of_nat (length shorts) + 1)) as [blk|] eqn:Hblk;
    [|reflexivity].
  apply Hmalloc in Hblk.
  assert (Hsplit : exists mid x, blk = mid ++ [x] /\ length mid = length shorts).
  { exists (take (length shorts) blk).
    destruct (drop (length shorts) blk) as [|x [|y l]] eqn:Hdrop.
    - apply (f_equal length) in Hdrop. rewrite length_drop in Hdrop.
      cbn in Hdrop. lia.
    - exists x. split.
      + rewrite <- Hdrop. now rewrite take_drop.
      + rewrite length_take. lia.
    - apply (f_equal length) in Hdrop. rewrite length_drop in Hdrop.
      cbn in Hdrop. lia. }
  destruct Hsplit as (mid & x & -> & Hmid).
  pose proof (opt_fill_writes term rest entries [] mid [x] Hnamed Hterm Hmid)
    as Hfill.
  cbn [app length] in Hfill. change (Z.of_nat 0) with 0 in Hfill.
  rewrite Hfill by (unfold INT_MAX; lia).
  cbn [Nat.add]. rewrite Hmid. fold shorts.
  rewrite store_mid. reflexivity.
Qed.

Variable app_params : Type.
Variable samplerate : app_params -> Z.
Variable api_status :
  list (event app_params) -> api_call app_params -> Z.






(** When every call succeeds [init_devices] returns 0 having made the
    whole plan: four calls for a TX-only test case, eight otherwise. *)
Theorem init_devices_succeeds (p : app_params) (tc : test_case)
    (tr : list (event app_params)) :
  (forall h c, api_status h c = 0) ->
  let r := init_devices app_params samplerate api_status p tc tr in
  fst r = 0 /\
  calls_of app_params (snd r)
    = calls_of app_params tr ++ plan app_params samplerate p tc /\
  length (plan app_params samplerate p tc)
    = (if just_tx tc then 4 else 8)%nat.
Proof.
  intros Hok r. subst r. unfold init_devices, checked, plan.
  rewrite !Hok. cbn [Z.eqb].
  destruct (just_tx tc); rewrite ?Hok; cbn [Z.eqb fst snd calls_of];
    rewrite <- ?app_assoc; split; try reflexivity; split; reflexivity.
Qed.

End HostProperties.

(** * Instances of the properties above *)

Lemma lookup_param_iff_in_range_witness :
  lookup_param 17 = CONFIG_RX_TIMESTAMP <->
  contains (info CONFIG_RX_TIMESTAMP) 17.
Proof. apply lookup_param_iff_in_range. discriminate. Defined.

(** 0x97: read, LMS, bit 3 clear, count 7. *)
Lemma cfg_fields_witness :
  0 <= count 0x97 <= 7 /\
  (dev_id 0x97 = UART_PKT_DEV_CONFIG \/ dev_id 0x97 = UART_PKT_DEV_LMS \/
   dev_id 0x97 = Z.shiftl 2 UART_PKT_MODE_DEV_SHIFT \/
   dev_id 0x97 = UART_PKT_DEV_SI5338) /\
  0x97 = 128 + 0 + 16 + 0 + 7.
Proof. apply (cfg_fields 0x97). lia. Defined.

(** A 7-tuple write of the two-byte RX gain correction: two tuples are
    answered, the third slot keeps the caller's 0xEE. *)
Lemma config_write_acknowledges_witness :
  let b := {| req := req (frame 0x47 [4; 0x34; 5; 0x12; 6; 0; 7; 0]);
              resp := replicate 16 0xEE |} in
  resp (fst (legacy_config_write sll_nios2 7 b init)) !! 5%nat = Some 0 /\
  resp (fst (legacy_config_write sll_nios2 7 b init)) !! 6%nat = Some 0xEE.
Proof.
  intros b.
  destruct (config_write_acknowledges sll_nios2 7 b init) as [Hack Hout].
  - left. split; reflexivity.
  - split.
    + apply (Hack 1%nat); vm_compute; lia.
    + apply (Hout 6%nat). right. vm_compute. lia.
Defined.

Lemma config_write_progress_witness :
  let s' := snd (legacy_config_write sll_nios2 1 ctrl_write_frame init) in
  n (wr s') = 1 /\ trace s' = [].
Proof.
  intros s'.
  destruct (config_write_progress sll_nios2 1 ctrl_write_frame init)
    as (_ & _ & Hfew & _).
  - left. split; reflexivity.
  - lia.
  - apply Hfew. vm_compute. reflexivity.
Defined.

Lemma timestamp_write_resets_witness :
  trace (snd (legacy_config_write sll_nios2 1 ts_write_frame2
           (snd (legacy_config_write sll_nios2 7 ts_write_frame1 init))))
  = [time_tamer_reset BLADERF_MODULE_RX].
Proof.
  destruct (timestamp_write_resets sll_nios2 BLADERF_MODULE_RX 7 1
              ts_write_frame1 ts_write_frame2 init)
    as (_ & _ & Ht & _).
  - reflexivity.
  - reflexivity.
  - reflexivity.
  - lia.
  - lia.
  - exact Ht.
Defined.

Lemma config_write_version_ignored_witness :
  trace (snd (legacy_config_write sll_nios2 4
           (frame 0x44 [12; 1; 13; 2; 14; 3; 15; 4]) init)) = [].
Proof.
  apply (config_write_version_ignored sll_nios2 4
           (frame 0x44 [12; 1; 13; 2; 14; 3; 15; 4]) init).
  - left. split; reflexivity.
  - left. reflexivity.
Defined.

Lemma pkt_legacy_count_zero_witness :
  fst (pkt_legacy PKT_CFG_IDX_spec dev_sample sll_nios2
         (frame 0x40 [0; 0xAB]) init) = frame 0x40 [0; 0xAB] /\
  trace (snd (pkt_legacy PKT_CFG_IDX_spec dev_sample sll_nios2
                (frame 0x40 [0; 0xAB]) init)) = [].
Proof.
  destruct (pkt_legacy_count_zero PKT_CFG_IDX_spec dev_sample sll_nios2
              (frame 0x40 [0; 0xAB]) init) as (Hb & Ht & _).
  - apply reachable_init.
  - reflexivity.
  - reflexivity.
  - split; [exact Hb | exact Ht].
Defined.

Lemma pkt_legacy_one_call_witness :
  exists calls,
    trace (snd (pkt_legacy PKT_CFG_IDX_spec dev_sample sll_nios2
                  ctrl_read_frame init)) = calls ++ trace init /\
    (length calls <= 1)%nat.
Proof.
  apply (pkt_legacy_one_call PKT_CFG_IDX_spec dev_sample sll_nios2
           ctrl_read_frame init).
  apply reachable_init.
Defined.

(** The control register, 0x04030201 in [dev_sample], read in one frame
    of four tuples. *)
Lemma config_read_whole_parameter_witness :
  resp (fst (legacy_config_read dev_sample 4
               (frame 0x84 [0; 0; 1; 0; 2; 0; 3; 0]) init))
  = [0; 0; 0; 1; 1; 2; 2; 3; 3; 4; 0; 0; 0; 0; 0; 0] /\
  snd (legacy_config_read dev_sample 4
         (frame 0x84 [0; 0; 1; 0; 2; 0; 3; 0]) init)
  = set_rd (emit control_reg_read init) rd_init.
Proof.
  destruct (config_read_whole_parameter dev_sample 4
              (frame 0x84 [0; 0; 1; 0; 2; 0; 3; 0]) init) as [_ Hs].
  - reflexivity.
  - vm_compute. split; discriminate.
  - vm_compute. lia.
  - split; [reflexivity | exact Hs].
Defined.

Lemma config_read_repeatable_witness :
  let b := frame 0x84 [0; 0; 1; 0; 2; 0; 3; 0] in
  let r1 := legacy_config_read dev_sample 4 b init in
  fst (legacy_config_read dev_sample 4 b (snd r1)) = fst r1.
Proof.
  intros b r1.
  apply (config_read_repeatable dev_sample 4 b init).
  - reflexivity.
  - vm_compute. discriminate.
  - reflexivity.
Defined.

Lemma config_read_resumed_witness :
  let s1 := snd (legacy_config_read dev_sample 1 ctrl_read_frame init) in
  trace (snd (legacy_config_read dev_sample 3
                (frame 0x83 [1; 0; 2; 0; 3; 0]) s1)) = trace s1 /\
  rd (snd (legacy_config_read dev_sample 3
             (frame 0x83 [1; 0; 2; 0; 3; 0]) s1)) = rd_init.
Proof.
  intros s1.
  destruct (config_read_resumed dev_sample 3
              (frame 0x83 [1; 0; 2; 0; 3; 0]) s1) as (Ht & _ & Hrd & _).
  - vm_compute. split; [discriminate | reflexivity].
  - lia.
  - split; [exact Ht | exact Hrd].
Defined.

(** The control register written in one frame with a last data byte
    that has its top bit set. *)
Lemma config_write_short_value_witness :
  trace (snd (legacy_config_write sll_nios2 4
           (frame 0x44 [0; 0x11; 1; 0x22; 2; 0x33; 3; 0x84]) init))
  = [control_reg_write 0x84332211].
Proof.
  destruct (config_write_short_value sll_nios2 4
              (frame 0x44 [0; 0x11; 1; 0x22; 2; 0x33; 3; 0x84]) init)
    as (_ & _ & Hcall).
  - reflexivity.
  - reflexivity.
  - vm_compute. split; discriminate.
  - vm_compute. discriminate.
  - apply Hcall; discriminate.
Defined.

(** The table of the test programme gives the string "b:p:f:li:v:h". *)
Lemma getopt_str_builds_witness :
  HwLoop.getopt_str 64 (fun k => Some (replicate (Z.to_nat k) 0xAA))
    HwLoop.long_options
  = Some (Some [98; 58; 112; 58; 102; 58; 108; 105; 58; 118; 58; 104; 0]).
Proof.
  apply (getopt_str_builds 64 (fun k => Some (replicate (Z.to_nat k) 0xAA))
           (take 7 HwLoop.long_options)
           {| HwLoop.name := None; HwLoop.has_arg := 0;
              HwLoop.flag := None; HwLoop.val := 0 |} []).
  - repeat constructor; discriminate.
  - reflexivity.
  - lia.
  - vm_compute. reflexivity.
  - intros k blk Hk. inversion Hk. apply length_replicate.
Defined.

Lemma init_devices_succeeds_witness :
  let tc := {| HwLoop.burst_len := 50000; HwLoop.iterations := 10;
               HwLoop.num_zero_samples := 0; HwLoop.period := 100000;
               HwLoop.fill := 50; HwLoop.frequency := 900000000;
               HwLoop.dev_tx_str := None; HwLoop.dev_rx_str := None;
               HwLoop.just_tx := true |} in
  fst (HwLoop.init_devices Z (fun p => p) (fun _ _ => 0) 1000000 tc []) = 0 /\
  length (HwLoop.calls_of Z
            (snd (HwLoop.init_devices Z (fun p => p) (fun _ _ => 0)
                    1000000 tc []))) = 4%nat.
Proof.
  intros tc.
  destruct (init_devices_succeeds Z (fun p => p) (fun _ _ => 0) 1000000 tc [])
    as (H0 & Hcalls & Hlen).
  - reflexivity.
  - split; [exact H0|]. rewrite Hcalls. exact Hlen.
Defined.
